(** * Relay pipeline of lab-terraform: a shallow embedding

    The repository relays database mutation intents from an HTTP producer
    (app1-produtora) over a message broker to a worker (app2-consumidora)
    that applies them to PostgreSQL.  This file embeds the relay core:

    - [app2-consumidora/main.py]: [MessageProcessor] (validation, dispatch);
    - [app2-consumidora/database_client.py]: [DatabaseClient] (SQL text);
    - [app2-consumidora/pubsub_subscriber.py]: [PubSubSubscriber];
    - [app1-produtora/pubsub_client.py]: [PubSubPublisher].

    Conventions.  A Python [str] is a Rocq [string] holding the UTF-8
    encoding of the text, so [s.encode('utf-8')] is the identity on the
    representation (a [str] with a lone surrogate has no such encoding and
    is outside the model).  A Python [int] is a [Z].  A Python [dict]
    decoded from JSON is an association list in insertion order (the order
    [keys()] and [values()] iterate in).  Exceptions are explicit: effectful
    code runs in a state-and-exception monad whose state survives a raise,
    as Python's does.  The limits of the interpreter (recursion depth,
    memory) are not modelled. *)

From Stdlib Require Import Ascii Floats.
From stdpp Require Import base decidable option list strings pretty numbers.

Set Warnings "-register-all".

(** ** Python values as decoded from JSON *)

Inductive json : Type :=
| JNull
| JBool (b : bool)
| JInt (n : Z)
| JFloat (x : float)
| JStr (s : string)
| JList (l : list json)
| JObject (m : list (string * json)).

(** A [dict] with string keys, in insertion order. *)
Abbreviation dict := (list (string * json)).

(** [d.get(k)]: [None] when the key is absent. *)
Fixpoint dict_get (k : string) (d : dict) : option json :=
  match d with
  | [] => None
  | (k', v) :: d' => if String.eqb k k' then Some v else dict_get k d'
  end.

(** [k in d] *)
Definition dict_mem (k : string) (d : dict) : bool :=
  match dict_get k d with Some _ => true | None => false end.

(** [d.get(k, default)] *)
Definition dict_get_default (k : string) (default : json) (d : dict) : json :=
  match dict_get k d with Some v => v | None => default end.

(** [d.keys()] and [d.values()], in insertion order. *)
Definition keys (d : dict) : list string := d.*1.
Definition values (d : dict) : list json := d.*2.

(** Python truthiness, as used by [not message_data.get('data')]. *)
Definition truthy (v : json) : bool :=
  match v with
  | JNull => false
  | JBool b => b
  | JInt n => negb (n =? 0)%Z
  | JFloat x => negb (PrimFloat.eqb x 0%float)
  | JStr s => negb (String.eqb s "")
  | JList l => match l with [] => false | _ => true end
  | JObject m => match m with [] => false | _ => true end
  end.

(** [not d.get(k)]: true when [k] is absent or holds a falsy value. *)
Definition not_get (k : string) (d : dict) : bool :=
  match dict_get k d with Some v => negb (truthy v) | None => true end.

(** [v != s] for a string literal [s]: only a [str] can equal a [str]. *)
Definition ne_str (v : option json) (s : string) : bool :=
  match v with
  | Some (JStr s') => negb (String.eqb s' s)
  | _ => true
  end.

(** [str.upper] is Python's Unicode upper-casing.  The development is
    parametric in it; [ascii_upper] is its restriction to ASCII text, used
    to run the model on concrete envelopes. *)
Class StrUpper := upper : string → string.

Definition ascii_upper_char (c : ascii) : ascii :=
  let n := nat_of_ascii c in
  if (97 <=? n)%nat && (n <=? 122)%nat then ascii_of_nat (n - 32) else c.

Fixpoint ascii_upper (s : string) : string :=
  match s with
  | EmptyString => EmptyString
  | String c s' => String (ascii_upper_char c) (ascii_upper s')
  end.

(** ** Exceptions and the state-and-exception monad *)

Inductive exn : Type :=
| AttributeError
| UnicodeDecodeError
| JSONDecodeError
| TimeoutError
| ServiceUnavailable
| NotFound
| PermissionDenied
| DatabaseError (detail : string).

Inductive result (A : Type) : Type :=
| Return (a : A)
| Raise (e : exn).
Arguments Return {A} a.
Arguments Raise {A} e.

Definition M (W A : Type) : Type := W → result A * W.

Global Instance M_ret {W} : MRet (M W) := λ A a w, (Return a, w).
Global Instance M_bind {W} : MBind (M W) := λ A B f m w,
  match m w with
  | (Return a, w') => f a w'
  | (Raise e, w') => (Raise e, w')
  end.

Definition raise {W A} (e : exn) : M W A := λ w, (Raise e, w).
Definition modify {W} (f : W → W) : M W () := λ w, (Return (), f w).

(** [try: m except Exception as e: h e] *)
Definition try_except {W A} (m : M W A) (h : exn → M W A) : M W A := λ w,
  match m w with
  | (Return a, w') => (Return a, w')
  | (Raise e, w') => h e w'
  end.

(** ** app2-consumidora/main.py: MessageProcessor *)

(** The module-level [metrics] dictionary (without [start_time]). *)
Record Metrics : Type := mkMetrics {
  messages_received : N;
  messages_processed : N;
  messages_failed : N;
  database_operations_success : N;
  database_operations_failed : N
}.

(** Messages written through [self.logger]; the text is kept as a tag with
    the values interpolated into it. *)
Inductive log_record : Type :=
| InfoProcessing (event_id : json)
| ErrInvalidStructure
| ErrMissingField (field : string)
| ErrInvalidEventType (event_type : option json)
| ErrInvalidOperation (operation : string)
| ErrInsertRequiresData
| ErrUpdateRequiresDataAndWhere
| ErrDeleteRequiresWhere
| InfoExecuting (operation : string) (table : json)
| ErrNotImplemented (operation : string)
| InfoOperationDone (operation : string)
| ErrOperationFailed (operation : string) (e : exn)
| InfoProcessed
| ErrProcessFailed
| ErrUnexpected (e : exn).

(** Calls made on [self.db_client], in program order. *)
Inductive db_call : Type :=
| CallInsert (table data : json)
| CallUpdate (table data where_ : json)
| CallDelete (table where_ : json).

(** The injected [db_client]: each method returns or raises and may change
    the store [D] it owns. *)
Class DbClient (D : Type) : Type := {
  db_insert : json → json → M D bool;
  db_update : json → json → json → M D bool;
  db_delete : json → json → M D bool
}.

Record World (D : Type) : Type := mkWorld {
  metrics : Metrics;
  logs : list log_record;
  calls : list db_call;
  store : D
}.
Arguments mkWorld {D} _ _ _ _.
Arguments metrics {D} _.
Arguments logs {D} _.
Arguments calls {D} _.
Arguments store {D} _.

Section MessageProcessor.
Context `{StrUpper} {D : Type} `{DbClient D}.

Definition log_ (r : log_record) : M (World D) () :=
  modify (λ w, mkWorld (metrics w) (logs w ++ [r]) (calls w) (store w)).

Definition bump (f : Metrics → Metrics) : M (World D) () :=
  modify (λ w, mkWorld (f (metrics w)) (logs w) (calls w) (store w)).

Definition inc_received (m : Metrics) : Metrics :=
  mkMetrics (messages_received m + 1) (messages_processed m) (messages_failed m)
            (database_operations_success m) (database_operations_failed m).
Definition inc_processed (m : Metrics) : Metrics :=
  mkMetrics (messages_received m) (messages_processed m + 1) (messages_failed m)
            (database_operations_success m) (database_operations_failed m).
Definition inc_failed (m : Metrics) : Metrics :=
  mkMetrics (messages_received m) (messages_processed m) (messages_failed m + 1)
            (database_operations_success m) (database_operations_failed m).
Definition inc_db_success (m : Metrics) : Metrics :=
  mkMetrics (messages_received m) (messages_processed m) (messages_failed m)
            (database_operations_success m + 1) (database_operations_failed m).
Definition inc_db_failed (m : Metrics) : Metrics :=
  mkMetrics (messages_received m) (messages_processed m) (messages_failed m)
            (database_operations_success m) (database_operations_failed m + 1).

(** A method call on [self.db_client]: the call is recorded, then the
    client runs on its own store. *)
Definition invoke (c : db_call) (body : M D bool) : M (World D) bool := λ w,
  let '(r, s') := body (store w) in
  (r, mkWorld (metrics w) (logs w) (calls w ++ [c]) s').

(** [v.upper()] on a decoded value: only [str] has the method. *)
Definition upper_of (v : json) : M (World D) string :=
  match v with
  | JStr s => mret (upper s)
  | _ => raise AttributeError
  end.

Definition required_fields : list string := ["operation"; "table"; "event_type"].
Definition valid_operations : list string := ["INSERT"; "UPDATE"; "DELETE"].

(** [x in valid_operations] *)
Definition str_in (x : string) (l : list string) : bool :=
  existsb (String.eqb x) l.

(** The [for field in required_fields] loop of [_validate_message]:
    the first absent field is logged and ends the validation. *)
Fixpoint check_required (fields : list string) (message_data : dict)
    : M (World D) bool :=
  match fields with
  | [] => mret true
  | field :: rest =>
      if negb (dict_mem field message_data)
      then log_ (ErrMissingField field) ;; mret false
      else check_required rest message_data
  end.

(** [MessageProcessor._validate_message] *)
Definition _validate_message (message_data : dict) : M (World D) bool :=
  present ← check_required required_fields message_data;
  if negb present then mret false else
  if ne_str (dict_get "event_type" message_data) "database_operation"
  then log_ (ErrInvalidEventType (dict_get "event_type" message_data)) ;; mret false
  else
  operation ← upper_of (dict_get_default "operation" (JStr "") message_data);
  if negb (str_in operation valid_operations)
  then log_ (ErrInvalidOperation operation) ;; mret false
  else
  if String.eqb operation "INSERT" then
    if not_get "data" message_data
    then log_ ErrInsertRequiresData ;; mret false
    else mret true
  else if String.eqb operation "UPDATE" then
    if not_get "data" message_data || not_get "where_clause" message_data
    then log_ ErrUpdateRequiresDataAndWhere ;; mret false
    else mret true
  else if String.eqb operation "DELETE" then
    if not_get "where_clause" message_data
    then log_ ErrDeleteRequiresWhere ;; mret false
    else mret true
  else mret true.

(** [MessageProcessor._execute_database_operation] *)
Definition _execute_database_operation
    (operation : string) (table data where_clause : json) : M (World D) bool :=
  try_except
    (log_ (InfoExecuting operation table) ;;
     if String.eqb operation "INSERT" then
       _ ← invoke (CallInsert table data) (db_insert table data);
       log_ (InfoOperationDone operation) ;; mret true
     else if String.eqb operation "UPDATE" then
       _ ← invoke (CallUpdate table data where_clause)
                  (db_update table data where_clause);
       log_ (InfoOperationDone operation) ;; mret true
     else if String.eqb operation "DELETE" then
       _ ← invoke (CallDelete table where_clause) (db_delete table where_clause);
       log_ (InfoOperationDone operation) ;; mret true
     else
       log_ (ErrNotImplemented operation) ;; mret false)
    (λ e, log_ (ErrOperationFailed operation e) ;; mret false).

(** [message_data.get(k, default)] on whatever [json.loads] returned:
    only a [dict] has the method. *)
Definition get_of (message_data : json) (k : string) (default : json)
    : M (World D) json :=
  match message_data with
  | JObject d => mret (dict_get_default k default d)
  | _ => raise AttributeError
  end.

(** [MessageProcessor.process_message] *)
Definition process_message (message_data : json) : M (World D) bool :=
  try_except
    (bump inc_received ;;
     event_id ← get_of message_data "event_id" (JStr "unknown");
     log_ (InfoProcessing event_id) ;;
     valid ← match message_data with
             | JObject d => _validate_message d
             | _ => raise AttributeError
             end;
     if negb valid then
       log_ ErrInvalidStructure ;; bump inc_failed ;; mret false
     else
       operation_value ← get_of message_data "operation" (JStr "");
       operation ← upper_of operation_value;
       table ← get_of message_data "table" (JStr "");
       data ← get_of message_data "data" (JObject []);
       where_clause ← get_of message_data "where_clause" (JObject []);
       success ← _execute_database_operation operation table data where_clause;
       if (success : bool) then
         bump inc_processed ;; bump inc_db_success ;; log_ InfoProcessed ;; mret true
       else
         bump inc_failed ;; bump inc_db_failed ;; log_ ErrProcessFailed ;; mret false)
    (λ e, bump inc_failed ;; log_ (ErrUnexpected e) ;; mret false).

End MessageProcessor.

(** ** app2-consumidora/database_client.py: DatabaseClient *)

(** What [conn.execute(query, *args)] receives. *)
Record statement : Type := mkStatement {
  query : string;
  args : list json
}.

(** [sep.join(parts)] *)
Definition join (sep : string) (parts : list string) : string :=
  String.concat sep parts.

(** The SQL text and bound arguments built by [DatabaseClient.insert]. *)
Definition insert_statement (table : string) (data : dict) : statement :=
  let keys_ := join ", " (keys data) in
  let values_ := join ", " (map (λ i, "$" +:+ pretty (i + 1)) (seq 0 (length data))) in
  let query := "INSERT INTO " +:+ table +:+ " (" +:+ keys_ +:+ ") VALUES (" +:+ values_ +:+ ")" in
  mkStatement query (values data).

(** The SQL text and bound arguments built by [DatabaseClient.update]. *)
Definition update_statement (table : string) (data where_ : dict) : statement :=
  let set_clause :=
    join ", " (imap (λ i k, k +:+ " = $" +:+ pretty (i + 1)) (keys data)) in
  let where_clause :=
    join " AND " (imap (λ i k, k +:+ " = $" +:+ pretty (i + 1 + length data)) (keys where_)) in
  let query := "UPDATE " +:+ table +:+ " SET " +:+ set_clause +:+ " WHERE " +:+ where_clause in
  mkStatement query (values data ++ values where_).

(** The SQL text and bound arguments built by [DatabaseClient.delete]. *)
Definition delete_statement (table : string) (where_ : dict) : statement :=
  let where_clause :=
    join " AND " (imap (λ i k, k +:+ " = $" +:+ pretty (i + 1)) (keys where_)) in
  let query := "DELETE FROM " +:+ table +:+ " WHERE " +:+ where_clause in
  mkStatement query (values where_).

(** The PostgreSQL side, reached through a connected pool:
    [conn_execute st] is [None] when the statement runs and [Some e] when
    [conn.execute] raises [e]. *)
Class Connection := conn_execute : statement → option exn.

(** The client's store: the statements handed to [conn.execute], in order. *)
Record Pg : Type := mkPg { executed : list statement }.

Section DatabaseClient.
Context `{Connection}.

(** [async with self.pool.acquire() as conn: await conn.execute(...)] *)
Definition execute (st : statement) : M Pg () := λ pg,
  match conn_execute st with
  | None => (Return (), mkPg (executed pg ++ [st]))
  | Some e => (Raise e, mkPg (executed pg ++ [st]))
  end.

(** [DatabaseClient.insert] *)
Definition insert (table : string) (data : dict) : M Pg bool :=
  execute (insert_statement table data) ;; mret true.

(** [DatabaseClient.update] *)
Definition update (table : string) (data where_ : dict) : M Pg bool :=
  execute (update_statement table data where_) ;; mret true.

(** [DatabaseClient.delete] *)
Definition delete (table : string) (where_ : dict) : M Pg bool :=
  execute (delete_statement table where_) ;; mret true.

End DatabaseClient.

(** The processor passes whatever the envelope holds.  [data.keys()] and
    [where.keys()] exist on a [dict] only; the table is interpolated by an
    f-string, which for a [str] is the string itself and for any other
    value is Python's [str(value)], a parameter here. *)
Class PyStr := py_str : json → string.

Section Dispatch.
Context `{Connection} `{PyStr}.

Definition format_table (table : json) : string :=
  match table with
  | JStr s => s
  | v => py_str v
  end.

Definition as_dict (v : json) : M Pg dict :=
  match v with
  | JObject d => mret d
  | _ => raise AttributeError
  end.

Global Instance DatabaseClient_DbClient : DbClient Pg := {|
  db_insert table data :=
    d ← as_dict data; insert (format_table table) d;
  db_update table data where_ :=
    d ← as_dict data; w ← as_dict where_; update (format_table table) d w;
  db_delete table where_ :=
    w ← as_dict where_; delete (format_table table) w
|}.
End Dispatch.

(** Instances used to run the model on concrete envelopes: a database on
    which every statement succeeds, ASCII upper-casing, and a [str()] that
    is only ever applied to strings in the examples. *)
Module Run.
Definition always_ok : Connection := λ _, None.
Definition upper_ascii : StrUpper := ascii_upper.
Definition no_str : PyStr := λ _, "".
Definition db : DbClient Pg := @DatabaseClient_DbClient always_ok no_str.
Definition metrics0 : Metrics := mkMetrics 0 0 0 0 0.
Definition world0 : World Pg := mkWorld metrics0 [] [] (mkPg []).
Definition process (message_data : json) : result bool * World Pg :=
  @process_message upper_ascii Pg db message_data world0.
End Run.

(** ** The JSON text of the broker payload

    [json.dumps(data, ensure_ascii=False, default=str)] on the producer
    side and [json.loads(message.data.decode("utf-8"))] on the consumer
    side are Python's standard library; they are embedded here from its
    documented behaviour (default separators, [ensure_ascii=False] escapes,
    strict string scanning).  [default=str] is only consulted for objects
    that are not JSON values and never applies to a [json].  The decimal
    text of a binary64 float and its reading are parameters. *)

Class FloatText : Type := {
  float_repr : float → string;
  float_parse : string → float
}.

Definition dquote : ascii := "034"%char.
Definition backslash : ascii := "092"%char.

Definition hex_digit (n : nat) : ascii :=
  if (n <? 10)%nat then ascii_of_nat (48 + n) else ascii_of_nat (87 + n).

(** The replacement of one character by [json.encoder.ESCAPE_DCT]. *)
Definition escape_char (c : ascii) : string :=
  let n := nat_of_ascii c in
  if (n =? 34)%nat then String backslash (String dquote "")
  else if (n =? 92)%nat then String backslash (String backslash "")
  else if (n =? 8)%nat then String backslash "b"
  else if (n =? 12)%nat then String backslash "f"
  else if (n =? 10)%nat then String backslash "n"
  else if (n =? 13)%nat then String backslash "r"
  else if (n =? 9)%nat then String backslash "t"
  else if (n <? 32)%nat then
    String backslash ("u00" +:+ String (hex_digit (n / 16)) (String (hex_digit (n mod 16)) ""))
  else String c "".

Fixpoint escape (s : string) : string :=
  match s with
  | EmptyString => EmptyString
  | String c s' => escape_char c +:+ escape s'
  end.

(** [json.encoder.py_encode_basestring] *)
Definition encode_basestring (s : string) : string :=
  String dquote (escape s +:+ String dquote "").

Section Dumps.
Context `{FloatText}.

(** [json.dumps(v, ensure_ascii=False)] *)
Fixpoint dumps (v : json) : string :=
  match v with
  | JNull => "null"
  | JBool true => "true"
  | JBool false => "false"
  | JInt n => pretty n
  | JFloat x => float_repr x
  | JStr s => encode_basestring s
  | JList l => "[" +:+ join ", " (map dumps l) +:+ "]"
  | JObject m =>
      "{" +:+ join ", " (map (λ kv, encode_basestring kv.1 +:+ ": " +:+ dumps kv.2) m) +:+ "}"
  end.
End Dumps.

(** *** json.loads *)

Definition is_ws (c : ascii) : bool :=
  let n := nat_of_ascii c in
  (n =? 32)%nat || (n =? 9)%nat || (n =? 10)%nat || (n =? 13)%nat.

Fixpoint skip_ws (s : string) : string :=
  match s with
  | String c s' => if is_ws c then skip_ws s' else s
  | EmptyString => EmptyString
  end.

Definition is_digit (c : ascii) : bool :=
  let n := nat_of_ascii c in (48 <=? n)%nat && (n <=? 57)%nat.

Definition digit_value (c : ascii) : N := N.of_nat (nat_of_ascii c - 48).

Definition hex_value (c : ascii) : option N :=
  let n := nat_of_ascii c in
  if (48 <=? n)%nat && (n <=? 57)%nat then Some (N.of_nat (n - 48))
  else if (97 <=? n)%nat && (n <=? 102)%nat then Some (N.of_nat (n - 87))
  else if (65 <=? n)%nat && (n <=? 70)%nat then Some (N.of_nat (n - 55))
  else None.

(** The four hexadecimal digits of a [\uXXXX] escape. *)
Definition hex4 (a b c d : ascii) : option N :=
  x1 ← hex_value a; x2 ← hex_value b; x3 ← hex_value c; x4 ← hex_value d;
  Some (((x1 * 16 + x2) * 16 + x3) * 16 + x4)%N.

Definition byte_of (n : N) : ascii := ascii_of_N n.

(** The UTF-8 bytes of a code point (a lone surrogate, which Python keeps
    in the [str], is written in the same three-byte form). *)
Definition utf8_encode (cp : N) : string :=
  if (cp <? 128)%N then String (byte_of cp) ""
  else if (cp <? 2048)%N then
    String (byte_of (192 + cp / 64)) (String (byte_of (128 + cp mod 64)) "")
  else if (cp <? 65536)%N then
    String (byte_of (224 + cp / 4096))
      (String (byte_of (128 + (cp / 64) mod 64)) (String (byte_of (128 + cp mod 64)) ""))
  else
    String (byte_of (240 + cp / 262144))
      (String (byte_of (128 + (cp / 4096) mod 64))
        (String (byte_of (128 + (cp / 64) mod 64)) (String (byte_of (128 + cp mod 64)) ""))).

(** [json.decoder.BACKSLASH] *)
Definition unescape_simple (c : ascii) : option ascii :=
  let n := nat_of_ascii c in
  if (n =? 34)%nat then Some dquote
  else if (n =? 92)%nat then Some backslash
  else if (n =? 47)%nat then Some "/"%char
  else if (n =? 98)%nat then Some "008"%char
  else if (n =? 102)%nat then Some "012"%char
  else if (n =? 110)%nat then Some "010"%char
  else if (n =? 114)%nat then Some "013"%char
  else if (n =? 116)%nat then Some "009"%char
  else None.

(** A low surrogate escape directly after a high surrogate escape. *)
Definition low_surrogate (s : string) : option (N * string) :=
  match s with
  | String b (String u (String h1 (String h2 (String h3 (String h4 rest))))) =>
      if Ascii.eqb b backslash && Ascii.eqb u "u" then
        match hex4 h1 h2 h3 h4 with
        | Some lo => if (56320 <=? lo)%N && (lo <=? 57343)%N then Some (lo, rest) else None
        | None => None
        end
      else None
  | _ => None
  end.

(** [json.decoder.scanstring] with [strict=True], started after the opening
    quote: the decoded string and the text after the closing quote. *)
Fixpoint scanstring (s : string) : option (string * string) :=
  match s with
  | EmptyString => None
  | String c s1 =>
      if Ascii.eqb c dquote then Some ("", s1)
      else if Ascii.eqb c backslash then
        match s1 with
        | EmptyString => None
        | String e s2 =>
            if Ascii.eqb e "u" then
              match s2 with
              | String h1 (String h2 (String h3 (String h4 s6))) =>
                  match hex4 h1 h2 h3 h4 with
                  | None => None
                  | Some hi =>
                      if (55296 <=? hi)%N && (hi <=? 56319)%N then
                        match s6 with
                        | String b (String u (String l1 (String l2 (String l3 (String l4 s12))))) =>
                            match low_surrogate s6 with
                            | Some (lo, _) =>
                                '(str, rest) ← scanstring s12;
                                Some (utf8_encode (65536 + (hi - 55296) * 1024 + (lo - 56320))
                                        +:+ str, rest)
                            | None =>
                                '(str, rest) ← scanstring s6;
                                Some (utf8_encode hi +:+ str, rest)
                            end
                        | _ =>
                            '(str, rest) ← scanstring s6;
                            Some (utf8_encode hi +:+ str, rest)
                        end
                      else
                        '(str, rest) ← scanstring s6;
                        Some (utf8_encode hi +:+ str, rest)
                  end
              | _ => None
              end
            else
              match unescape_simple e with
              | Some c' => '(str, rest) ← scanstring s2; Some (String c' str, rest)
              | None => None
              end
        end
      else if (nat_of_ascii c <? 32)%nat then None
      else '(str, rest) ← scanstring s1; Some (String c str, rest)
  end.

(** The digits of a number, most significant first. *)
Fixpoint read_digits (acc : N) (s : string) : N * string :=
  match s with
  | String c s' => if is_digit c then read_digits (acc * 10 + digit_value c) s' else (acc, s)
  | EmptyString => (acc, s)
  end.

(** The integer part: a single 0, or a non-zero digit and more digits. *)
Definition read_int (s : string) : option (N * string) :=
  match s with
  | String c s' =>
      if Ascii.eqb c "0" then Some (0%N, s')
      else if is_digit c then Some (read_digits (digit_value c) s')
      else None
  | EmptyString => None
  end.

(** A run of digits, kept as text. *)
Fixpoint span_digits (s : string) : string * string :=
  match s with
  | String c s' =>
      if is_digit c then let '(ds, rest) := span_digits s' in (String c ds, rest)
      else ("", s)
  | EmptyString => ("", s)
  end.

(** The optional fraction: a dot and at least one digit. *)
Definition read_frac (s : string) : string * string :=
  match s with
  | String c s' =>
      if Ascii.eqb c "." then
        match span_digits s' with
        | (EmptyString, _) => ("", s)
        | (ds, rest) => (String c ds, rest)
        end
      else ("", s)
  | EmptyString => ("", s)
  end.

(** The optional exponent: e or E, an optional sign, at least one digit. *)
Definition read_exp (s : string) : string * string :=
  match s with
  | String c s' =>
      if Ascii.eqb c "e" || Ascii.eqb c "E" then
        let '(sign, s'') :=
          match s' with
          | String g t => if Ascii.eqb g "-" || Ascii.eqb g "+" then (String g "", t) else ("", s')
          | EmptyString => ("", s')
          end in
        match span_digits s'' with
        | (EmptyString, _) => ("", s)
        | (ds, rest) => (String c (sign +:+ ds), rest)
        end
      else ("", s)
  | EmptyString => ("", s)
  end.

(** [s.startswith(p)], returning the text after the prefix. *)
Fixpoint strip_prefix (p s : string) : option string :=
  match p, s with
  | EmptyString, _ => Some s
  | String a p', String b s' => if Ascii.eqb a b then strip_prefix p' s' else None
  | String _ _, EmptyString => None
  end.

(** Python's [dict] built from the pairs in reading order: a repeated key
    keeps its first position and takes the last value. *)
Fixpoint dict_set (k : string) (v : json) (d : dict) : dict :=
  match d with
  | [] => [(k, v)]
  | (k', v') :: d' => if String.eqb k k' then (k, v) :: d' else (k', v') :: dict_set k v d'
  end.

Definition dict_of_pairs (pairs : list (string * json)) : dict :=
  foldl (λ d kv, dict_set kv.1 kv.2 d) [] pairs.

Section Loads.
Context `{FloatText}.

(** [NUMBER_RE] of [json.scanner]: an integer unless a fraction or an
    exponent follows. *)
Definition scan_number (s : string) : option (json * string) :=
  let '(neg, s0) :=
    match s with
    | String c s' => if Ascii.eqb c "-" then (true, s') else (false, s)
    | EmptyString => (false, s)
    end in
  match read_int s0 with
  | None => None
  | Some (n, s1) =>
      let '(frac, s2) := read_frac s1 in
      let '(exp, s3) := read_exp s2 in
      match frac, exp with
      | EmptyString, EmptyString =>
          Some (JInt (if neg then - Z.of_N n else Z.of_N n)%Z, s1)
      | _, _ =>
          Some (JFloat (float_parse ((if neg then "-" else "") +:+ pretty n +:+ frac +:+ exp)), s3)
      end
  end.

(** The elements of a non-empty array, comma separated, up to and
    including the closing bracket. *)
Fixpoint scan_elements (scan_once : string → option (json * string))
    (n : nat) (s : string) : option (list json * string) :=
  match n with
  | O => None
  | S n' =>
      '(v, r) ← scan_once s;
      match skip_ws r with
      | String c r' =>
          if Ascii.eqb c "]" then Some ([v], r')
          else if Ascii.eqb c "," then
            '(vs, r'') ← scan_elements scan_once n' (skip_ws r');
            Some (v :: vs, r'')
          else None
      | EmptyString => None
      end
  end.

(** The members of a non-empty object, started at the opening quote of
    the first key, up to and including the closing brace. *)
Fixpoint scan_members (scan_once : string → option (json * string))
    (n : nat) (s : string) : option (list (string * json) * string) :=
  match n with
  | O => None
  | S n' =>
      match s with
      | String q s1 =>
          if Ascii.eqb q dquote then
            '(k, r1) ← scanstring s1;
            match skip_ws r1 with
            | String c r2 =>
                if Ascii.eqb c ":" then
                  '(v, r3) ← scan_once (skip_ws r2);
                  match skip_ws r3 with
                  | String c' r4 =>
                      if Ascii.eqb c' "}" then Some ([(k, v)], r4)
                      else if Ascii.eqb c' "," then
                        '(kvs, r5) ← scan_members scan_once n' (skip_ws r4);
                        Some ((k, v) :: kvs, r5)
                      else None
                  | EmptyString => None
                  end
                else None
            | EmptyString => None
            end
          else None
      | EmptyString => None
      end
  end.

(** [json.scanner.py_make_scanner._scan_once], with the nesting depth
    bounded by [fuel]. *)
Fixpoint scan_once (fuel : nat) (s : string) : option (json * string) :=
  match fuel with
  | O => None
  | S fuel' =>
      match s with
      | EmptyString => None
      | String c s' =>
          if Ascii.eqb c dquote then
            '(str, rest) ← scanstring s'; Some (JStr str, rest)
          else if Ascii.eqb c "{" then
            match skip_ws s' with
            | String c' r =>
                if Ascii.eqb c' "}" then Some (JObject [], r)
                else
                  '(kvs, rest) ← scan_members (scan_once fuel') (String.length s) (skip_ws s');
                  Some (JObject (dict_of_pairs kvs), rest)
            | EmptyString => None
            end
          else if Ascii.eqb c "[" then
            match skip_ws s' with
            | String c' r =>
                if Ascii.eqb c' "]" then Some (JList [], r)
                else
                  '(vs, rest) ← scan_elements (scan_once fuel') (String.length s) (skip_ws s');
                  Some (JList vs, rest)
            | EmptyString => None
            end
          else
            match strip_prefix "null" s, strip_prefix "true" s, strip_prefix "false" s with
            | Some rest, _, _ => Some (JNull, rest)
            | _, Some rest, _ => Some (JBool true, rest)
            | _, _, Some rest => Some (JBool false, rest)
            | _, _, _ =>
                match scan_number s with
                | Some r => Some r
                | None =>
                    match strip_prefix "NaN" s, strip_prefix "Infinity" s,
                          strip_prefix "-Infinity" s with
                    | Some rest, _, _ => Some (JFloat nan, rest)
                    | _, Some rest, _ => Some (JFloat infinity, rest)
                    | _, _, Some rest => Some (JFloat neg_infinity, rest)
                    | _, _, _ => None
                    end
                end
            end
      end
  end.

(** [json.loads(text)]: one value, surrounded by optional white space.
    Every nested value takes at least one character, so the length of
    the text bounds the nesting depth. *)
Definition loads (text : string) : result json :=
  match scan_once (S (String.length text)) (skip_ws text) with
  | Some (v, rest) =>
      match skip_ws rest with
      | EmptyString => Return v
      | _ => Raise JSONDecodeError
      end
  | None => Raise JSONDecodeError
  end.
End Loads.

(** *** bytes.decode("utf-8") *)

Definition continuation (c : ascii) : bool :=
  let n := nat_of_ascii c in (128 <=? n)%nat && (n <=? 191)%nat.

Definition between (lo hi : nat) (c : ascii) : bool :=
  let n := nat_of_ascii c in (lo <=? n)%nat && (n <=? hi)%nat.

(** Whether the bytes are well-formed UTF-8, as the strict decoder
    requires: shortest forms only, no surrogates, nothing above U+10FFFF. *)
Fixpoint utf8_valid (s : string) : bool :=
  match s with
  | EmptyString => true
  | String b0 s1 =>
      if between 0 127 b0 then utf8_valid s1
      else if between 194 223 b0 then
        match s1 with
        | String b1 s2 => continuation b1 && utf8_valid s2
        | _ => false
        end
      else if between 224 239 b0 then
        match s1 with
        | String b1 (String b2 s3) =>
            (if between 224 224 b0 then between 160 191 b1
             else if between 237 237 b0 then between 128 159 b1
             else continuation b1)
            && continuation b2 && utf8_valid s3
        | _ => false
        end
      else if between 240 244 b0 then
        match s1 with
        | String b1 (String b2 (String b3 s4)) =>
            (if between 240 240 b0 then between 144 191 b1
             else if between 244 244 b0 then between 128 143 b1
             else continuation b1)
            && continuation b2 && continuation b3 && utf8_valid s4
        | _ => false
        end
      else false
  end.

Section Payload.
Context `{FloatText}.

(** [json.loads(message.data.decode("utf-8"))] *)
Definition payload_loads (data : string) : result json :=
  if utf8_valid data then loads data else Raise UnicodeDecodeError.

(** [json.dumps(data, ensure_ascii=False, default=str).encode('utf-8')] *)
Definition payload_dumps (data : json) : string := dumps data.
End Payload.

(** ** app2-consumidora/pubsub_subscriber.py: PubSubSubscriber *)

(** A delivered [Message]: its identifier and its raw payload. *)
Record Message : Type := mkMessage {
  message_id : string;
  data : string
}.

Inductive decision : Type := Ack | Nack.

(** [self.metrics] of the subscriber. *)
Record SubscriberMetrics : Type := mkSubscriberMetrics {
  sub_messages_received : N;
  messages_acked : N;
  messages_nacked : N
}.

(** The subscriber's world: its counters, the [ack()]/[nack()] requests
    sent to the broker in order, and the world [W] of the processor. *)
Record SubWorld (W : Type) : Type := mkSubWorld {
  sub_metrics : SubscriberMetrics;
  decisions : list (string * decision);
  processor_world : W
}.
Arguments mkSubWorld {W} _ _ _.
Arguments sub_metrics {W} _.
Arguments decisions {W} _.
Arguments processor_world {W} _.

Section Callback.
Context `{FloatText} {W : Type}.
(** [self.message_processor.process_message], injected at construction. *)
Context (process : json → M W bool).

Definition sub_bump (f : SubscriberMetrics → SubscriberMetrics) : M (SubWorld W) () :=
  modify (λ w, mkSubWorld (f (sub_metrics w)) (decisions w) (processor_world w)).

Definition inc_sub_received (m : SubscriberMetrics) : SubscriberMetrics :=
  mkSubscriberMetrics (sub_messages_received m + 1) (messages_acked m) (messages_nacked m).
Definition inc_acked (m : SubscriberMetrics) : SubscriberMetrics :=
  mkSubscriberMetrics (sub_messages_received m) (messages_acked m + 1) (messages_nacked m).
Definition inc_nacked (m : SubscriberMetrics) : SubscriberMetrics :=
  mkSubscriberMetrics (sub_messages_received m) (messages_acked m) (messages_nacked m + 1).

(** [message.ack()] and [message.nack()] *)
Definition settle (message : Message) (d : decision) : M (SubWorld W) () :=
  modify (λ w, mkSubWorld (sub_metrics w) (decisions w ++ [(message_id message, d)])
                          (processor_world w)).

(** A pure step that returns or raises. *)
Definition lift_result {A} (r : result A) : M (SubWorld W) A := λ w, (r, w).

(** [asyncio.run_coroutine_threadsafe(coro, loop).result()]: the value the
    coroutine returns, or the exception it (or the hand-off) raises. *)
Definition run_coroutine (coro : M W bool) : M (SubWorld W) bool := λ w,
  let '(r, pw) := coro (processor_world w) in
  (r, mkSubWorld (sub_metrics w) (decisions w) pw).

(** [PubSubSubscriber._callback] *)
Definition _callback (message : Message) : M (SubWorld W) () :=
  sub_bump inc_sub_received ;;
  try_except
    (decoded ← lift_result (payload_loads (data message));
     success ← run_coroutine (process decoded);
     if (success : bool) then settle message Ack ;; sub_bump inc_acked
     else settle message Nack ;; sub_bump inc_nacked)
    (λ e, settle message Nack).

End Callback.

(** [pubsub_v1.types.FlowControl] *)
Record FlowControl : Type := mkFlowControl { max_messages : nat }.

(** What [subscriber_client.subscribe] was called with. *)
Record Subscription : Type := mkSubscription {
  subscribed_path : string;
  flow_control : FlowControl
}.

Record PubSubSubscriber : Type := mkPubSubSubscriber {
  project_id : string;
  subscription_id : string;
  streaming_pull_future : option Subscription;
  is_consuming : bool
}.

(** [PubSubSubscriber.__init__] (the processor is the section parameter of
    [_callback]). *)
Definition new_subscriber (project_id subscription_id : string) : PubSubSubscriber :=
  mkPubSubSubscriber project_id subscription_id None false.

(** [SubscriberClient.subscription_path] *)
Definition subscription_path (project subscription : string) : string :=
  "projects/" +:+ project +:+ "/subscriptions/" +:+ subscription.

(** [PubSubSubscriber.start_consuming] *)
Definition start_consuming (self : PubSubSubscriber) : PubSubSubscriber :=
  let flow_control := mkFlowControl 10 in
  mkPubSubSubscriber (project_id self) (subscription_id self)
    (Some (mkSubscription (subscription_path (project_id self) (subscription_id self))
                          flow_control))
    true.

(** Modelled from the spec: the flow control of the broker client library
    (google.cloud.pubsub_v1, not part of the repository), of which the spec
    says that it enforces the cap on outstanding messages.  A message the
    broker offers is handed to the callback only while fewer than
    [max_messages] deliveries are outstanding, and is held back otherwise; a
    delivery stops being outstanding when its callback has sent [ack()] or
    [nack()]. *)
Inductive broker_event : Type :=
| Offer (id : string)
| Settled (id : string).

Fixpoint remove_first (id : string) (l : list string) : list string :=
  match l with
  | [] => []
  | x :: l' => if String.eqb id x then l' else x :: remove_first id l'
  end.

Definition flow_step (fc : FlowControl) (outstanding : list string) (e : broker_event)
    : list string :=
  match e with
  | Offer id =>
      if (length outstanding <? max_messages fc)%nat then outstanding ++ [id] else outstanding
  | Settled id => remove_first id outstanding
  end.

(** The deliveries outstanding after a run of broker events on a consumer
    that is running, that is, after [start_consuming]. *)
Definition outstanding_after (self : PubSubSubscriber) (events : list broker_event)
    : option (list string) :=
  match streaming_pull_future self with
  | Some sub => Some (foldl (flow_step (flow_control sub)) [] events)
  | None => None
  end.

(** ** app1-produtora/pubsub_client.py: PubSubPublisher *)

(** How a send ends. *)
Inductive outcome : Type :=
| Sent (id : string)
| Failed (e : exn).

(** The future returned by [publisher_client.publish]: when it resolves
    (in time units after the call) and how. *)
Record Future : Type := mkFuture {
  resolves_after : N;
  resolved : outcome
}.

(** [future.result(timeout=t)] *)
Definition future_result (timeout : N) (f : Future) : result string :=
  if (timeout <? resolves_after f)%N then Raise TimeoutError
  else match resolved f with
       | Sent id => Return id
       | Failed e => Raise e
       end.

(** One call of [publisher_client.publish]. *)
Record Published : Type := mkPublished {
  topic : string;
  payload : string;
  attributes : list (string * json)
}.

(** The broker as the publisher sees it: [script n] is the fate of the
    [n]-th send, [published] the sends issued so far. *)
Record Broker : Type := mkBroker {
  script : nat → Future;
  published : list Published
}.

(** [datetime.utcnow().isoformat()], indexed by the number of sends issued
    before the reading. *)
Class Clock := utcnow_isoformat : nat → string.

(** [google.api_core.retry.Retry] *)
Record Retry : Type := mkRetry {
  initial : N;
  maximum : N;
  multiplier : N;
  deadline : N
}.

Section Publisher.
Context `{FloatText} `{Clock}.
(** [self.topic_path] *)
Context (topic_path : string).

(** [self.publisher_client.publish(topic, data, **attributes)] *)
Definition client_publish (data : string) (attrs : list (string * json))
    : M Broker Future := λ b,
  (Return (script b (length (published b))),
   mkBroker (script b) (published b ++ [mkPublished topic_path data attrs])).

Definition utcnow : M Broker string := λ b,
  (Return (utcnow_isoformat (length (published b))), b).

(** The inner [_get_result] of [PubSubPublisher._wait_for_publish]: the
    retry policy is built and bound to a local name; the result is one
    wait on the future. *)
Definition _get_result (future : Future) : result string :=
  match
    (let retry_policy := mkRetry 1 60 2 300 in
     future_result 30 future)
  with
  | Return id => Return id
  | Raise e => Raise e
  end.

(** [PubSubPublisher._wait_for_publish] *)
Definition _wait_for_publish (future : Future) : M Broker string := λ b,
  (_get_result future, b).

(** [PubSubPublisher.publish_message] *)
Definition publish_message (data : dict) : M Broker string :=
  try_except
    (let message_data := dumps (JObject data) in
     let message_bytes := message_data in
     now ← utcnow;
     let attributes :=
       [("source", JStr "app1-produtora");
        ("event_type", dict_get_default "event_type" (JStr "unknown") data);
        ("timestamp", dict_get_default "timestamp" (JStr now) data);
        ("operation", dict_get_default "operation" (JStr "unknown") data)] in
     future ← client_publish message_bytes attributes;
     message_id ← _wait_for_publish future;
     mret message_id)
    (λ e, raise e).

(** The first loop of [PubSubPublisher.publish_batch]: every message is
    serialised and sent; the futures are collected in order. *)
Fixpoint send_all (i size : nat) (messages : list json) : M Broker (list Future) :=
  match messages with
  | [] => mret []
  | data :: rest =>
      let message_bytes := dumps data in
      now ← utcnow;
      let attributes :=
        [("source", JStr "app1-produtora");
         ("batch_index", JStr (pretty i));
         ("batch_size", JStr (pretty size));
         ("timestamp", JStr now)] in
      future ← client_publish message_bytes attributes;
      futures ← send_all (S i) size rest;
      mret (future :: futures)
  end.

(** The second loop: one wait per future; a failed wait appends [None]. *)
Definition collect (futures : list Future) : list (option string) :=
  map (λ future,
         match future_result 30 future with
         | Return message_id => Some message_id
         | Raise _ => None
         end) futures.

(** [PubSubPublisher.publish_batch] *)
Definition publish_batch (messages : list json) : M Broker (list (option string)) :=
  try_except
    (futures ← send_all 0 (length messages) messages;
     mret (collect futures))
    (λ e, raise e).

(** What the [k]-th iteration of the first loop of [publish_batch] hands
    to the broker client. *)
Definition batch_send (first size sent k : nat) (data : json) : Published :=
  mkPublished topic_path (dumps data)
    [("source", JStr "app1-produtora");
     ("batch_index", JStr (pretty (first + k)));
     ("batch_size", JStr (pretty size));
     ("timestamp", JStr (utcnow_isoformat (sent + k)))].

(** The failures a later attempt can overcome. *)
Definition transient (e : exn) : bool :=
  match e with
  | ServiceUnavailable | TimeoutError => true
  | _ => false
  end.

(** The retry policy as the spec words it, for comparison with
    [publish_message]: a transiently failed send is repeated after a
    delay that starts at [initial], is multiplied by [multiplier] and
    capped at [maximum], while the delays spent stay within [deadline];
    after that the failure is raised. *)
Fixpoint spec_retry (fuel : nat) (policy : Retry) (elapsed delay : N)
    (send : M Broker Future) : M Broker string :=
  future ← send;
  match future_result 30 future with
  | Return message_id => mret message_id
  | Raise e =>
      match fuel with
      | S fuel' =>
          if transient e && (elapsed + delay <=? deadline policy)%N
          then spec_retry fuel' policy (elapsed + delay)
                 (N.min (delay * multiplier policy) (maximum policy)) send
          else raise e
      | O => raise e
      end
  end.

Definition spec_publish_with_retry (data : dict) : M Broker string :=
  let policy := mkRetry 1 60 2 300 in
  spec_retry (N.to_nat (deadline policy)) policy 0 (initial policy)
    (now ← utcnow;
     client_publish (dumps (JObject data))
       [("source", JStr "app1-produtora");
        ("event_type", dict_get_default "event_type" (JStr "unknown") data);
        ("timestamp", dict_get_default "timestamp" (JStr now) data);
        ("operation", dict_get_default "operation" (JStr "unknown") data)]).
End Publisher.

(** ** Parameterised statements in the words of the spec *)

(** The numbered placeholder [$n]; PostgreSQL reads it as the [n]-th bound
    argument, counting from one. *)
Definition placeholder (n : nat) : string := "$" +:+ pretty n.

Definition parameter (st : statement) (n : nat) : option json :=
  match n with
  | O => None
  | S i => args st !! i
  end.

(** [column = $n] *)
Definition assignment (column : string) (n : nat) : string :=
  column +:+ " = " +:+ placeholder n.

(** The placeholders [$first], [$first+1], ... for [n] values. *)
Definition placeholder_list (first n : nat) : string :=
  join ", " (placeholder <$> seq first n).

(** One assignment per column, numbered from [first], joined by [sep]. *)
Definition assignments (sep : string) (first : nat) (columns : list string) : string :=
  join sep (imap (λ i column, assignment column (first + i)) columns).

(** [fragment] occurs in [text] as it is. *)
Definition occurs (fragment text : string) : Prop :=
  ∃ before after, text = before +:+ fragment +:+ after.

(** ** Envelopes that the payload carries unchanged *)

(** The values the round trip is stated for: null, booleans, integers,
    strings of well-formed text, and lists and mappings of such values.  A
    [dict] has no two equal keys.  Floats are left out. *)
Fixpoint wire_value (v : json) : bool :=
  match v with
  | JNull | JBool _ | JInt _ => true
  | JFloat _ => false
  | JStr s => utf8_valid s
  | JList l => forallb wire_value l
  | JObject m =>
      forallb (λ kv, utf8_valid kv.1 && wire_value kv.2) m && bool_decide (NoDup (keys m))
  end.

(** The nesting depth of a value. *)
Fixpoint depth (v : json) : nat :=
  match v with
  | JList l => S (foldr (λ x n, Nat.max (depth x) n) 0 l)
  | JObject m => S (foldr (λ kv n, Nat.max (depth kv.2) n) 0 m)
  | _ => 0
  end.

(** Text that can follow a number: it does not go on with a digit, a
    fraction or an exponent. *)
Definition ends_number (rest : string) : bool :=
  match rest with
  | EmptyString => true
  | String c _ =>
      negb (is_digit c || Ascii.eqb c "." || Ascii.eqb c "e" || Ascii.eqb c "E")
  end.

(** The first character of a value tells the scanner what to read: it is
    no white space and closes no array. *)
Definition opens_value (c : ascii) : bool :=
  negb (is_ws c) && negb (Ascii.eqb c "]").

Section Reading.
Context `{FloatText}.

(** The text of one member of an object. *)
Definition member_text (kv : string * json) : string :=
  encode_basestring kv.1 +:+ ": " +:+ dumps kv.2.

(** What the scanner is assumed to do on the values below a given depth,
    while the arrays and objects containing them are read. *)
Definition reads_back (fuel : nat) : Prop :=
  ∀ v rest, wire_value v = true → depth v < fuel → ends_number rest = true →
    scan_once fuel (dumps v +:+ rest) = Some (v, rest).
End Reading.

(** ** The validation rules in the words of the spec *)

Section ValidationRules.
Context `{StrUpper}.

(** (a) the required top-level fields are present. *)
Definition fields_present (d : dict) : Prop :=
  ∀ field, field ∈ ["operation"; "table"; "event_type"] → dict_get field d ≠ None.

(** (b) [event_type] equals the expected discriminator. *)
Definition is_database_operation (d : dict) : Prop :=
  dict_get "event_type" d = Some (JStr "database_operation").

(** The operation kind of an envelope: its [operation], a string,
    compared case-insensitively. *)
Definition operation_is (d : dict) (kind : string) : Prop :=
  ∃ s, dict_get "operation" d = Some (JStr s) ∧ upper s = kind.

(** (c) [operation] is one of the three allowed kinds. *)
Definition operation_allowed (d : dict) : Prop :=
  operation_is d "INSERT" ∨ operation_is d "UPDATE" ∨ operation_is d "DELETE".

(** A field is present and non-empty.  Empty is what Python treats as
    false: for a mapping, having no entries. *)
Definition present_nonempty (field : string) (d : dict) : Prop :=
  ∃ v, dict_get field d = Some v ∧ truthy v = true.

(** (d) the operation-specific requirements. *)
Definition requirements_hold (d : dict) : Prop :=
  (operation_is d "INSERT" → present_nonempty "data" d) ∧
  (operation_is d "UPDATE" →
     present_nonempty "data" d ∧ present_nonempty "where_clause" d) ∧
  (operation_is d "DELETE" → present_nonempty "where_clause" d).

(** A field is absent or empty: the key is missing, or it holds null (what
    the producer writes for a field its caller left out) or a mapping with
    no entries. *)
Definition absent_or_empty (field : string) (d : dict) : Prop :=
  dict_get field d = None ∨ dict_get field d = Some JNull ∨
  dict_get field d = Some (JObject []).

Definition valid_envelope (d : dict) : Prop :=
  fields_present d ∧ is_database_operation d ∧ operation_allowed d ∧ requirements_hold d.
End ValidationRules.

(** [w] with the records [l] appended to its log. *)
Definition add_logs {D} (w : World D) (l : list log_record) : World D :=
  mkWorld (metrics w) (logs w ++ l) (calls w) (store w).

(** ** The scenarios of the spec *)

(** The envelopes of the end-to-end scenarios of the spec, as the consumer
    decodes them. *)
Definition scenario_insert : dict :=
  [("event_id", JStr "evt_1"); ("event_type", JStr "database_operation");
   ("operation", JStr "insert"); ("table", JStr "users");
   ("data", JObject [("name", JStr "Ana"); ("age", JInt 30)]); ("where_clause", JNull)].

Definition scenario_update : dict :=
  [("event_id", JStr "evt_2"); ("event_type", JStr "database_operation");
   ("operation", JStr "update"); ("table", JStr "users");
   ("data", JObject [("age", JInt 31)]); ("where_clause", JObject [("name", JStr "Ana")])].

Definition scenario_delete_unscoped : dict :=
  [("event_id", JStr "evt_3"); ("event_type", JStr "database_operation");
   ("operation", JStr "delete"); ("table", JStr "users");
   ("data", JNull); ("where_clause", JObject [])].

Definition scenario_insert_empty : dict :=
  [("event_id", JStr "evt_4"); ("event_type", JStr "database_operation");
   ("operation", JStr "Insert"); ("table", JStr "users"); ("data", JObject [])].

(** An envelope with nested mappings and mixed value types. *)
Definition scenario_mixed : dict :=
  [("event_id", JStr "evt_1700000000_7"); ("timestamp", JStr "2024-01-01T10:00:00");
   ("source", JStr "app1-produtora"); ("event_type", JStr "database_operation");
   ("operation", JStr "UPDATE"); ("table", JStr "users");
   ("data", JObject [("name", JStr (String dquote "Ana\ Lu" +:+ String "010" "cia"));
                     ("age", JInt 30); ("debt", JInt (-1250)); ("active", JBool true);
                     ("nickname", JNull);
                     ("address", JObject [("city", JStr "São Paulo"); ("zip", JInt 0)])]);
   ("where_clause", JObject [("id", JInt 7)])].

(** The broker of scenario 4 of the spec: the send fails transiently three
    times and succeeds on the fourth attempt, every answer arriving within
    one time unit. *)
Definition flaky_script (n : nat) : Future :=
  if (n <? 3)%nat then mkFuture 1 (Failed ServiceUnavailable) else mkFuture 1 (Sent "m4").

Definition flaky_broker : Broker := mkBroker flaky_script [].

Module Producer.
Definition float_text : FloatText := {| float_repr := λ _, "0.0"; float_parse := λ _, 0%float |}.
Definition clock : Clock := λ n, "2024-01-01T00:00:0" +:+ pretty n.
Definition topic : string := "projects/meu-projeto-lab/topics/database-operations".
Definition publish (data : dict) (b : Broker) : result string * Broker :=
  @publish_message float_text clock topic data b.
Definition publish_as_specified (data : dict) (b : Broker) : result string * Broker :=
  @spec_publish_with_retry float_text clock topic data b.
End Producer.

(** The consumer of the scenarios: the callback of a subscriber whose
    processor is the [MessageProcessor] over a database that accepts every
    statement. *)
Module Consumer.
Definition world0 : SubWorld (World Pg) :=
  mkSubWorld (mkSubscriberMetrics 0 0 0) [] Run.world0.
Definition deliver (id payload : string) : result () * SubWorld (World Pg) :=
  @_callback Producer.float_text (World Pg)
    (@process_message Run.upper_ascii Pg Run.db) (mkMessage id payload) world0.
(** What the producer publishes for an envelope, handed to the callback. *)
Definition relay (id : string) (envelope : dict) : result () * SubWorld (World Pg) :=
  deliver id (@payload_dumps Producer.float_text (JObject envelope)).
End Consumer.

(** ** What the processor hands to the client *)

(** Whether a step returned rather than raised. *)
Definition returned {A} (r : result A) : bool :=
  match r with
  | Return _ => true
  | Raise _ => false
  end.

(** The method call that [process_message] makes for an accepted envelope
    of the given kind: the table, [data] and [where_clause] are read with
    [get], the mappings with the default [{}]. *)
Definition call_of (kind : string) (d : dict) : db_call :=
  let table := dict_get_default "table" (JStr "") d in
  let data := dict_get_default "data" (JObject []) d in
  let where_clause := dict_get_default "where_clause" (JObject []) d in
  if String.eqb kind "INSERT" then CallInsert table data
  else if String.eqb kind "UPDATE" then CallUpdate table data where_clause
  else CallDelete table where_clause.

Section Dispatching.
Context `{StrUpper} {D : Type} `{DbClient D}.

(** The client method behind a recorded call. *)
Definition run_call (c : db_call) : M D bool :=
  match c with
  | CallInsert table data => db_insert table data
  | CallUpdate table data where_ => db_update table data where_
  | CallDelete table where_ => db_delete table where_
  end.

(** The worker processing one decoded payload after the other. *)
Definition process_all (payloads : list json) (w : World D) : World D :=
  foldl (λ w payload, snd (process_message payload w)) w payloads.
End Dispatching.

(** The counters after one more message, processed with result [b]; [db]
    tells whether the client was called. *)
Definition counted (b db : bool) (m : Metrics) : Metrics :=
  if b then inc_db_success (inc_processed (inc_received m))
  else if db then inc_db_failed (inc_failed (inc_received m))
  else inc_failed (inc_received m).

Section Summary.
Context `{StrUpper} {D : Type} `{DbClient D}.

(** One message: the result [b], the counters, and the client calls, of
    which there is one when [db] holds and none otherwise. *)
Definition step_summary (v : json) (w : World D) (b db : bool) : Prop :=
  let w' := snd (process_message v w) in
  fst (process_message v w) = Return b ∧
  metrics w' = counted b db (metrics w) ∧
  (b = true → db = true) ∧
  ∃ cs, calls w' = calls w ++ cs ∧ length cs = (if db then 1 else 0).
End Summary.

Section ConcreteDispatch.
Context `{Connection} `{PyStr}.

(** The statement that [DatabaseClient] builds for a call, when the
    mappings it needs are mappings. *)
Definition statement_of (c : db_call) : option statement :=
  match c with
  | CallInsert table (JObject data) => Some (insert_statement (format_table table) data)
  | CallUpdate table (JObject data) (JObject where_) =>
      Some (update_statement (format_table table) data where_)
  | CallDelete table (JObject where_) => Some (delete_statement (format_table table) where_)
  | _ => None
  end.
End ConcreteDispatch.

(** An INSERT whose [data] is a non-empty string: not empty, so the
    validation lets it through, but not a mapping. *)
Definition scenario_insert_string_data : dict :=
  [("event_id", JStr "evt_5"); ("event_type", JStr "database_operation");
   ("operation", JStr "INSERT"); ("table", JStr "users"); ("data", JStr "name=Ana")].

(** ** Runs of deliveries *)




Section Deliveries.
Context `{FloatText} {W : Type} (process : json → M W bool).

(** The callback invoked for one delivered message after the other. *)
Definition deliver_all (messages : list Message) (w : SubWorld W) : SubWorld W :=
  foldl (λ w message, snd (_callback process message w)) w messages.



End Deliveries.

(** ** The streaming pulls of a subscriber *)

(** The subscriber together with the streaming pulls it has opened at the
    broker client, each with whether it was cancelled; [future] is the
    position of the pull that [self.streaming_pull_future] refers to. *)
Record Pulling : Type := mkPulling {
  subscriber_of : PubSubSubscriber;
  future : option nat;
  pulls : list (Subscription * bool)
}.

Definition fresh_pulling (project_id subscription_id : string) : Pulling :=
  mkPulling (new_subscriber project_id subscription_id) None [].

(** [start_consuming], with the pull it opens recorded. *)
Definition start_pulling (p : Pulling) : Pulling :=
  let self := start_consuming (subscriber_of p) in
  match streaming_pull_future self with
  | Some sub => mkPulling self (Some (length (pulls p))) (pulls p ++ [(sub, false)])
  | None => mkPulling self (future p) (pulls p)
  end.

(** [future.cancel()] *)
Definition cancel (i : nat) (pulls : list (Subscription * bool)) : list (Subscription * bool) :=
  alter (λ pull, (pull.1, true)) i pulls.

(** [PubSubSubscriber.stop_consuming] *)
Definition stop_consuming (p : Pulling) : Pulling :=
  match future p with
  | Some i =>
      mkPulling
        (mkPubSubSubscriber (project_id (subscriber_of p)) (subscription_id (subscriber_of p))
           (streaming_pull_future (subscriber_of p)) false)
        (future p) (cancel i (pulls p))
  | None => p
  end.

(** ** app1-produtora/pubsub_client.py: constructing the publisher *)

(** What ends the construction of a [PubSubPublisher]. *)
Inductive init_error : Type :=
| DefaultCredentialsError
| Propagated (e : exn)
| PlainException (message : string).

(** What the constructor reads from outside: the process environment, the
    file system, and the answers of [google.auth.default()], of
    [pubsub_v1.PublisherClient()] and of [get_topic]. *)
Record Surroundings : Type := mkSurroundings {
  environ : list (string * string);
  path_exists : string → bool;
  default_credentials : init_error + option string;
  new_publisher_client : option init_error;
  get_topic : string → option exn
}.

(** [os.getenv(key)] *)
Definition getenv (environ : list (string * string)) (key : string) : option string :=
  snd <$> List.find (λ kv, String.eqb (fst kv) key) environ.

(** [os.getenv(key, default)] *)
Definition getenv_default (environ : list (string * string)) (key default : string) : string :=
  match getenv environ key with
  | Some value => value
  | None => default
  end.

(** The fields of a constructed [PubSubPublisher]. *)
Record PubSubPublisher : Type := mkPubSubPublisher {
  pub_project_id : string;
  pub_topic_name : string;
  pub_topic_path : string
}.

(** [PublisherClient.topic_path] *)
Definition topic_path_of (project topic : string) : string :=
  "projects/" +:+ project +:+ "/topics/" +:+ topic.

(** [PubSubPublisher._verify_topic_exists] *)
Definition _verify_topic_exists (s : Surroundings) (topic_name topic_path : string)
    : option init_error :=
  match get_topic s topic_path with
  | None => None
  | Some NotFound =>
      Some (PlainException
              ("Tópico " +:+ topic_name +:+ " não existe. Crie-o primeiro com Terraform."))
  | Some PermissionDenied =>
      Some (PlainException "Service Account sem permissão para acessar Pub/Sub")
  | Some e => Some (Propagated e)
  end.

(** The [try] at the head of [_initialize_client]: the project to use, or
    the exception that leaves the method. *)
Definition authenticate (s : Surroundings) (project_id : string) : init_error + string :=
  match default_credentials s with
  | inr project =>
      match project with
      | Some project => if String.eqb project "" then inr project_id else inr project
      | None => inr project_id
      end
  | inl DefaultCredentialsError =>
      match getenv (environ s) "GOOGLE_APPLICATION_CREDENTIALS" with
      | Some sa_key_path =>
          if negb (String.eqb sa_key_path "") && path_exists s sa_key_path
          then inr project_id
          else inl DefaultCredentialsError
      | None => inl DefaultCredentialsError
      end
  | inl e => inl e
  end.

(** [PubSubPublisher._initialize_client] *)
Definition _initialize_client (s : Surroundings) (project_id topic_name : string)
    : init_error + PubSubPublisher :=
  match authenticate s project_id with
  | inl e => inl e
  | inr project_id =>
      match new_publisher_client s with
      | Some e => inl e
      | None =>
          let topic_path := topic_path_of project_id topic_name in
          match _verify_topic_exists s topic_name topic_path with
          | Some e => inl e
          | None => inr (mkPubSubPublisher project_id topic_name topic_path)
          end
      end
  end.

(** [PubSubPublisher.__init__]: the [except] logs and raises again. *)
Definition new_publisher (s : Surroundings) : init_error + PubSubPublisher :=
  let project_id := getenv_default (environ s) "PROJECT_ID" "meu-projeto-lab" in
  let topic_name := getenv_default (environ s) "PUBSUB_TOPIC" "database-operations" in
  match _initialize_client s project_id topic_name with
  | inr self => inr self
  | inl e => inl e
  end.

(** Surroundings in which the constructor succeeds by the key file. *)
Definition key_file_surroundings : Surroundings :=
  mkSurroundings
    [("PUBSUB_TOPIC", "orders"); ("GOOGLE_APPLICATION_CREDENTIALS", "/secrets/key.json")]
    (λ path, String.eqb path "/secrets/key.json")
    (inl DefaultCredentialsError)
    None
    (λ _, None).

(** Surroundings in which the ambient credentials name a project. *)
Definition ambient_surroundings : Surroundings :=
  mkSurroundings
    [("PROJECT_ID", "from-env")]
    (λ _, false)
    (inr (Some "from-adc"))
    None
    (λ _, None).

(** ** app2-consumidora/main.py: the worker and its probes *)

Module Worker.
(** An argument of a call: a string, or the [MessageProcessor] object. *)
Inductive value : Type :=
| Text (s : string)
| ProcessorObject.

(** What leaves [start_consumer]: the [TypeError] of a call or of an
    [await], or an exception of a client library. *)
Inductive failure : Type :=
| TypeError
| Raised (e : exn).

(** The module's globals [subscriber], [processor] (whether it is set) and
    [running], and the connection pools created and not closed. *)
Record Globals : Type := mkGlobals {
  subscriber : option Pulling;
  processor : bool;
  running : bool;
  pools : nat
}.

(** The globals when the module has been loaded. *)
Definition loaded : Globals := mkGlobals None false false 0.

Section Worker.
(** The answers from outside: of [DatabaseClient()] with
    [db_client.connect()], of [pubsub_v1.SubscriberClient()], and the text
    that formatting gives for the processor object. *)
Context (connect : option exn) (subscriber_client : option exn) (processor_text : string).

Definition value_text (v : value) : string :=
  match v with
  | Text s => s
  | ProcessorObject => processor_text
  end.

(** A call of [PubSubSubscriber] with the given arguments: [__init__] has the three parameters
    [project_id], [subscription_id] and [message_processor], none with a
    default, so any other number of arguments is a [TypeError] raised
    before the body runs. *)
Definition PubSubSubscriber_new (args : list value) : failure + Pulling :=
  match args with
  | [project_id; subscription_id; message_processor] =>
      match subscriber_client with
      | Some e => inl (Raised e)
      | None => inr (fresh_pulling (value_text project_id) (value_text subscription_id))
      end
  | _ => inl TypeError
  end.

(** The [try] body of [start_consumer].  [start_consuming] is a plain
    method that returns [None], so the [await] on its result raises. *)
Definition start_consumer_body (g : Globals) : option failure * Globals :=
  match connect with
  | Some e => (Some (Raised e), g)
  | None =>
      let g := mkGlobals (subscriber g) (processor g) (running g) (S (pools g)) in
      let g := mkGlobals (subscriber g) true (running g) (pools g) in
      match PubSubSubscriber_new [ProcessorObject] with
      | inl e => (Some e, g)
      | inr s =>
          let g := mkGlobals (Some s) (processor g) (running g) (pools g) in
          let g := mkGlobals (subscriber g) (processor g) true (pools g) in
          let g := mkGlobals (start_pulling <$> subscriber g) (processor g) (running g)
                     (pools g) in
          (Some TypeError, g)
      end
  end.

(** [start_consumer] *)
Definition start_consumer (g : Globals) : option failure * Globals :=
  match start_consumer_body g with
  | (Some e, g) => (Some e, mkGlobals (subscriber g) (processor g) false (pools g))
  | (None, g) => (None, g)
  end.

(** [stop_consumer] *)
Definition stop_consumer (g : Globals) : Globals :=
  let g := mkGlobals (subscriber g) (processor g) false (pools g) in
  match subscriber g with
  | Some s => mkGlobals (Some (stop_consuming s)) (processor g) (running g) (pools g)
  | None => g
  end.

(** [main]: the exception of [start_consumer] is logged, and [finally]
    stops the consumer. *)
Definition main (g : Globals) : Globals :=
  let '(_, g) := start_consumer g in
  stop_consumer g.
End Worker.

(** The status code of [health_check]. *)
Definition health_check (g : Globals) : nat :=
  let is_healthy := running g && bool_decide (subscriber g ≠ None) in
  if is_healthy then 200 else 503.

(** The status code of [readiness_check]. *)
Definition readiness_check (g : Globals) : nat :=
  let dependencies_ready :=
    running g && bool_decide (subscriber g ≠ None) && processor g in
  if dependencies_ready then 200 else 503.

(** The [status] field of [root]. *)
Definition root_status (g : Globals) : string :=
  if running g then "running" else "stopped".
End Worker.

(** * Properties *)

(** ** The monad *)

Ltac run :=
  unfold mbind, M_bind, mret, M_ret, raise, modify, try_except in *; simpl in *.

Lemma add_logs_nil {D} (w : World D) : add_logs w [] = w.
Proof. destruct w; unfold add_logs; simpl. by rewrite app_nil_r. Qed.

Lemma add_logs_app {D} (w : World D) l1 l2 :
  add_logs (add_logs w l1) l2 = add_logs w (l1 ++ l2).
Proof. unfold add_logs; simpl. by rewrite app_assoc. Qed.

(** ** MessageProcessor: validation *)

Section ValidationFacts.
Context `{StrUpper} {D : Type} `{DbClient D}.
Implicit Types (d : dict) (w : World D).

Lemma not_get_false field d :
  not_get field d = false ↔ present_nonempty field d.
Proof.
  unfold not_get, present_nonempty. destruct (dict_get field d) as [v|]; split.
  - intros Hv. exists v. split; [done|]. by destruct (truthy v).
  - intros (v' & [= <-] & ->). done.
  - done.
  - by intros (v' & ? & _).
Qed.

Lemma not_get_true field d :
  not_get field d = true ↔ ¬ present_nonempty field d.
Proof.
  rewrite <- not_get_false. destruct (not_get field d); split; done.
Qed.

Lemma operation_is_fun d k1 k2 : operation_is d k1 → operation_is d k2 → k1 = k2.
Proof. intros (s1 & E1 & <-) (s2 & E2 & <-). congruence. Qed.

(** (a): the first absent required field is reported, nothing else. *)
Lemma validate_missing_field d :
  ¬ fields_present d →
  ∃ field, field ∈ required_fields ∧ dict_get field d = None ∧
    ∀ w, _validate_message d w = (Return false, add_logs w [ErrMissingField field]).
Proof.
  intros Hn. unfold _validate_message, required_fields, check_required, dict_mem.
  destruct (dict_get "operation" d) as [vo|] eqn:Eo.
  2:{ exists "operation". split; [repeat constructor|]. split; [done|]. intros w. by run. }
  destruct (dict_get "table" d) as [vt|] eqn:Et.
  2:{ exists "table". split; [repeat constructor|]. split; [done|]. intros w. by run. }
  destruct (dict_get "event_type" d) as [ve|] eqn:Ee.
  2:{ exists "event_type". split; [repeat constructor|]. split; [done|]. intros w. by run. }
  exfalso. apply Hn. intros field Hf.
  repeat (apply elem_of_cons in Hf as [-> | Hf]; [congruence|]).
  by apply elem_of_nil in Hf.
Qed.

Lemma fields_present_inv d :
  fields_present d →
  (∃ vo, dict_get "operation" d = Some vo) ∧
  (∃ vt, dict_get "table" d = Some vt) ∧
  (∃ ve, dict_get "event_type" d = Some ve).
Proof.
  intros Hp. repeat split.
  - destruct (dict_get "operation" d) eqn:E; [eauto|]. by destruct (Hp "operation"); [repeat constructor|].
  - destruct (dict_get "table" d) eqn:E; [eauto|]. by destruct (Hp "table"); [repeat constructor|].
  - destruct (dict_get "event_type" d) eqn:E; [eauto|]. by destruct (Hp "event_type"); [repeat constructor|].
Qed.

Lemma check_required_present d w :
  fields_present d → check_required required_fields d w = (Return true, w).
Proof.
  intros (( vo & Eo) & (vt & Et) & (ve & Ee))%fields_present_inv.
  unfold required_fields, check_required, dict_mem. rewrite Eo, Et, Ee. by run.
Qed.

Lemma ne_str_false v s : ne_str v s = false ↔ v = Some (JStr s).
Proof.
  unfold ne_str. destruct v as [[]|]; try (split; [done|congruence]).
  destruct (String.eqb_spec s0 s); simpl; split; congruence.
Qed.

(** (b): with the fields present, a wrong [event_type] is reported. *)
Lemma validate_wrong_event_type d w :
  fields_present d → ¬ is_database_operation d →
  _validate_message d w =
    (Return false, add_logs w [ErrInvalidEventType (dict_get "event_type" d)]).
Proof.
  intros Hp Hb. unfold _validate_message. run. rewrite (check_required_present _ _ Hp). simpl.
  destruct (ne_str (dict_get "event_type" d) "database_operation") eqn:E; [done|].
  by apply ne_str_false in E.
Qed.

Lemma str_in_valid x :
  str_in x valid_operations = true ↔ x = "INSERT" ∨ x = "UPDATE" ∨ x = "DELETE".
Proof.
  unfold str_in, valid_operations. simpl.
  destruct (String.eqb_spec x "INSERT"), (String.eqb_spec x "UPDATE"),
    (String.eqb_spec x "DELETE"); simpl; split; intros; try done; tauto.
Qed.

Local Arguments str_in : simpl never.
Local Arguments ne_str : simpl never.
Local Arguments not_get : simpl never.

Lemma operation_allowed_iff d :
  operation_allowed d ↔
  ∃ s, dict_get "operation" d = Some (JStr s) ∧ str_in (upper s) valid_operations = true.
Proof.
  unfold operation_allowed, operation_is. setoid_rewrite str_in_valid. split.
  - intros [(s & E & Hk) | [(s & E & Hk) | (s & E & Hk)]]; exists s; tauto.
  - intros (s & E & [Hk | [Hk | Hk]]); eauto 6.
Qed.

(** The part of [_validate_message] that all accepted and all later
    rejected envelopes pass through. *)
Ltac enter_validation Hp Hb :=
  unfold _validate_message; run;
  rewrite (check_required_present _ _ Hp); simpl;
  rewrite (proj2 (ne_str_false _ _) Hb); unfold dict_get_default.

(** (c): with the fields present and the right [event_type], an operation
    outside the three kinds is reported; an [operation] that is not a
    string has no [upper] and the call raises. *)
Lemma validate_wrong_operation d w :
  fields_present d → is_database_operation d → ¬ operation_allowed d →
  (∃ s, dict_get "operation" d = Some (JStr s) ∧
        _validate_message d w = (Return false, add_logs w [ErrInvalidOperation (upper s)])) ∨
  ((∀ s, dict_get "operation" d ≠ Some (JStr s)) ∧
   _validate_message d w = (Raise AttributeError, w)).
Proof.
  intros Hp Hb Hc. rewrite operation_allowed_iff in Hc.
  destruct (fields_present_inv _ Hp) as ((vo & Eo) & _).
  enter_validation Hp Hb. rewrite Eo.
  destruct vo as [| | | |s| |]; try (right; split; [congruence|done]).
  left. exists s. split; [done|]. simpl.
  destruct (str_in (upper s) valid_operations) eqn:Hin; [|done].
  destruct Hc. eauto.
Qed.

(** (d): an envelope of an allowed kind that misses what its kind
    requires is reported with the message of that kind. *)
Lemma validate_insert_without_data d w :
  fields_present d → is_database_operation d → operation_is d "INSERT" →
  ¬ present_nonempty "data" d →
  _validate_message d w = (Return false, add_logs w [ErrInsertRequiresData]).
Proof.
  intros Hp Hb (s & Es & Hk) Hd%not_get_true.
  enter_validation Hp Hb. rewrite Es. simpl. rewrite Hk.
  rewrite (proj2 (str_in_valid _)) by auto. simpl. by rewrite Hd.
Qed.

Lemma validate_update_without_fields d w :
  fields_present d → is_database_operation d → operation_is d "UPDATE" →
  ¬ (present_nonempty "data" d ∧ present_nonempty "where_clause" d) →
  _validate_message d w = (Return false, add_logs w [ErrUpdateRequiresDataAndWhere]).
Proof.
  intros Hp Hb (s & Es & Hk) Hd.
  enter_validation Hp Hb. rewrite Es. simpl. rewrite Hk.
  rewrite (proj2 (str_in_valid _)) by auto. simpl.
  destruct (not_get "data" d) eqn:E1; [done|].
  destruct (not_get "where_clause" d) eqn:E2; [done|].
  destruct Hd. by rewrite <- !not_get_false.
Qed.

Lemma validate_delete_without_where d w :
  fields_present d → is_database_operation d → operation_is d "DELETE" →
  ¬ present_nonempty "where_clause" d →
  _validate_message d w = (Return false, add_logs w [ErrDeleteRequiresWhere]).
Proof.
  intros Hp Hb (s & Es & Hk) Hd%not_get_true.
  enter_validation Hp Hb. rewrite Es. simpl. rewrite Hk.
  rewrite (proj2 (str_in_valid _)) by auto. simpl. by rewrite Hd.
Qed.

(** An envelope that passes (a) to (d) is accepted and nothing is logged. *)
Lemma validate_accepts d w :
  valid_envelope d → _validate_message d w = (Return true, w).
Proof.
  intros (Hp & Hb & Hc & Hi & Hu & Hd).
  enter_validation Hp Hb.
  destruct Hc as [Hk | [Hk | Hk]]; pose proof Hk as (s & Es & Ek);
    rewrite Es; simpl; rewrite Ek;
    rewrite (proj2 (str_in_valid _)) by auto; simpl.
  - apply Hi, not_get_false in Hk. by rewrite Hk.
  - apply Hu in Hk as [->%not_get_false ->%not_get_false]. done.
  - apply Hd, not_get_false in Hk. by rewrite Hk.
Qed.

(** Only such envelopes are accepted. *)
Lemma validate_sound d w w' :
  _validate_message d w = (Return true, w') → valid_envelope d.
Proof.
  unfold _validate_message, required_fields, check_required, dict_mem, dict_get_default.
  destruct (dict_get "operation" d) as [vo|] eqn:Eo; [|by run].
  destruct (dict_get "table" d) as [vt|] eqn:Et; [|by run].
  destruct (dict_get "event_type" d) as [ve|] eqn:Ee; [|by run].
  run. destruct (ne_str (Some ve) "database_operation") eqn:Eb; [done|].
  apply ne_str_false in Eb.
  destruct vo as [| | | |s| |]; try done. simpl.
  destruct (str_in (upper s) valid_operations) eqn:Hin; [|done]. simpl.
  assert (fields_present d) as Hp.
  { intros field Hf. repeat (apply elem_of_cons in Hf as [-> | Hf]; [congruence|]).
    by apply elem_of_nil in Hf. }
  assert (∀ k, operation_is d k ↔ upper s = k) as Hop.
  { intros k. split; [intros (s' & E' & <-); congruence | intros <-; by exists s]. }
  unfold valid_envelope, is_database_operation, operation_allowed, requirements_hold.
  rewrite !Hop, Ee. apply str_in_valid in Hin.
  destruct (String.eqb_spec (upper s) "INSERT") as [Ei|Ei].
  { rewrite Ei. destruct (not_get "data" d) eqn:E1; [done|]. apply not_get_false in E1.
    intros _. repeat split; try done; auto. }
  destruct (String.eqb_spec (upper s) "UPDATE") as [Eu|Eu].
  { rewrite Eu. destruct (not_get "data" d) eqn:E1; [done|].
    destruct (not_get "where_clause" d) eqn:E2; [done|].
    apply not_get_false in E1, E2. intros _. repeat split; try done; auto. }
  destruct (String.eqb_spec (upper s) "DELETE") as [Ed|Ed].
  { rewrite Ed. destruct (not_get "where_clause" d) eqn:E1; [done|].
    apply not_get_false in E1. intros _. repeat split; try done; auto. }
  tauto.
Qed.

(** Validation writes to the log only, and what it writes and returns
    does not depend on the world it starts in. *)
Lemma validate_log_only d :
  ∃ r l, ∀ w, _validate_message d w = (r, add_logs w l).
Proof.
  unfold _validate_message, required_fields, check_required, dict_mem, dict_get_default.
  destruct (dict_get "operation" d) as [vo|]; [|eexists _, _; intros w; by run].
  destruct (dict_get "table" d) as [vt|]; [|eexists _, _; intros w; by run].
  destruct (dict_get "event_type" d) as [ve|]; [|eexists _, _; intros w; by run].
  run. destruct (ne_str _ _); [eexists _, _; intros w; done|].
  destruct vo; simpl;
    try (exists (Raise AttributeError), []; intros w; by rewrite add_logs_nil).
  destruct (str_in _ _); simpl; [|eexists _, _; intros w; done].
  repeat (destruct (String.eqb _ _));
    repeat (destruct (not_get _ _); simpl);
    first [ eexists _, _; intros w; done
          | exists (Return true), []; intros w; by rewrite add_logs_nil ].
Qed.

(** ** MessageProcessor: a rejected envelope never reaches the executor *)

Lemma process_rejected d w :
  ¬ valid_envelope d →
  ∃ w', process_message (JObject d) w = (Return false, w') ∧
        calls w' = calls w ∧ store w' = store w.
Proof.
  intros Hn. destruct (validate_log_only d) as (r & l & Hv).
  assert (r ≠ Return true) as Hr.
  { intros ->. apply Hn. eapply validate_sound. apply (Hv w). }
  unfold process_message, get_of, bump, log_. run. rewrite Hv.
  destruct r as [[]|e]; [done| |]; simpl; eexists; (split; [reflexivity|done]).
Qed.

(** A payload that is not an object has no [get] and is rejected too. *)
Lemma process_not_object v w :
  (∀ d, v ≠ JObject d) →
  ∃ w', process_message v w = (Return false, w') ∧
        calls w' = calls w ∧ store w' = store w.
Proof.
  intros Hv. unfold process_message, get_of, bump, log_. run.
  destruct v; try (eexists; split; [reflexivity|done]). by destruct (Hv m).
Qed.

Lemma requirements_fail d :
  operation_allowed d → ¬ requirements_hold d →
  (operation_is d "INSERT" ∧ ¬ present_nonempty "data" d) ∨
  (operation_is d "UPDATE" ∧
     ¬ (present_nonempty "data" d ∧ present_nonempty "where_clause" d)) ∨
  (operation_is d "DELETE" ∧ ¬ present_nonempty "where_clause" d).
Proof.
  intros Hc Hn.
  destruct Hc as [Hk | [Hk | Hk]]; [left | right; left | right; right];
    (split; [done|]); intros Hreq; apply Hn; (split; [|split]);
    intros Hk'; try tauto; by pose proof (operation_is_fun _ _ _ Hk Hk').
Qed.

(** C1: the processor validates an envelope in the order (a) required
    fields present, (b) [event_type] is "database_operation", (c) the
    upper-cased [operation] is INSERT, UPDATE or DELETE, (d) the
    requirements of that operation; the first check that fails decides
    what is reported, an envelope passing all four is accepted, and every
    other envelope makes [process_message] return [False] with no call on
    the executor. *)
Theorem validation_order_and_rejection d w :
  (¬ fields_present d →
     ∃ field, field ∈ required_fields ∧ dict_get field d = None ∧
       _validate_message d w = (Return false, add_logs w [ErrMissingField field])) ∧
  (fields_present d → ¬ is_database_operation d →
     _validate_message d w =
       (Return false, add_logs w [ErrInvalidEventType (dict_get "event_type" d)])) ∧
  (fields_present d → is_database_operation d → ¬ operation_allowed d →
     (∃ s, dict_get "operation" d = Some (JStr s) ∧
           _validate_message d w =
             (Return false, add_logs w [ErrInvalidOperation (upper s)])) ∨
     ((∀ s, dict_get "operation" d ≠ Some (JStr s)) ∧
      _validate_message d w = (Raise AttributeError, w))) ∧
  (fields_present d → is_database_operation d → operation_allowed d →
   ¬ requirements_hold d →
     ∃ e, e ∈ [ErrInsertRequiresData; ErrUpdateRequiresDataAndWhere;
               ErrDeleteRequiresWhere] ∧
          _validate_message d w = (Return false, add_logs w [e])) ∧
  (valid_envelope d ↔ _validate_message d w = (Return true, w)) ∧
  (¬ valid_envelope d →
     ∃ w', process_message (JObject d) w = (Return false, w') ∧
           calls w' = calls w ∧ store w' = store w).
Proof.
  repeat apply conj.
  - intros Ha. destruct (validate_missing_field d Ha) as (field & ? & ? & Hv). eauto.
  - apply validate_wrong_event_type.
  - apply validate_wrong_operation.
  - intros Ha Hb Hc Hd.
    destruct (requirements_fail d Hc Hd) as [[Hk Hr] | [[Hk Hr] | [Hk Hr]]].
    + exists ErrInsertRequiresData. split; [repeat constructor|].
      by apply validate_insert_without_data.
    + exists ErrUpdateRequiresDataAndWhere. split; [repeat constructor|].
      by apply validate_update_without_fields.
    + exists ErrDeleteRequiresWhere. split; [repeat constructor|].
      by apply validate_delete_without_where.
  - apply validate_accepts.
  - apply validate_sound.
  - apply process_rejected.
Qed.

Lemma absent_or_empty_not_present field d :
  absent_or_empty field d → ¬ present_nonempty field d.
Proof.
  intros Hw (v & Ev & Hv).
  destruct Hw as [Hw | [Hw | Hw]]; rewrite Hw in Ev; [done|..]; by injection Ev as <-.
Qed.

(** C2: an envelope whose operation is DELETE and whose [where_clause] is
    absent or empty is not accepted by the validation, and processing it
    returns [False] without any call on the executor (no delete, no
    statement). *)
Theorem delete_without_where_is_rejected d w :
  operation_is d "DELETE" →
  absent_or_empty "where_clause" d →
  fst (_validate_message d w) ≠ Return true ∧
  ∃ w', process_message (JObject d) w = (Return false, w') ∧
        calls w' = calls w ∧ store w' = store w.
Proof.
  intros Hk Hw%absent_or_empty_not_present.
  assert (¬ valid_envelope d) as Hn.
  { intros (_ & _ & _ & _ & _ & Hd). by apply Hw, Hd. }
  split; [|by apply process_rejected].
  intros Hr. apply Hn. apply (validate_sound d w (snd (_validate_message d w))).
  rewrite <- Hr. by destruct (_validate_message d w).
Qed.

(** C3: an envelope whose operation is INSERT and whose [data] is absent
    or empty is not accepted by the validation, and processing it returns
    [False] without any call on the executor. *)
Theorem insert_without_data_is_rejected d w :
  operation_is d "INSERT" →
  absent_or_empty "data" d →
  fst (_validate_message d w) ≠ Return true ∧
  ∃ w', process_message (JObject d) w = (Return false, w') ∧
        calls w' = calls w ∧ store w' = store w.
Proof.
  intros Hk Hw%absent_or_empty_not_present.
  assert (¬ valid_envelope d) as Hn.
  { intros (_ & _ & _ & Hi & _ & _). by apply Hw, Hi. }
  split; [|by apply process_rejected].
  intros Hr. apply Hn. apply (validate_sound d w (snd (_validate_message d w))).
  rewrite <- Hr. by destruct (_validate_message d w).
Qed.
End ValidationFacts.

Example scenario_insert_runs :
  Run.process (JObject scenario_insert) =
    (Return true,
     mkWorld (mkMetrics 1 1 0 1 0)
       [InfoProcessing (JStr "evt_1"); InfoExecuting "INSERT" (JStr "users");
        InfoOperationDone "INSERT"; InfoProcessed]
       [CallInsert (JStr "users") (JObject [("name", JStr "Ana"); ("age", JInt 30)])]
       (mkPg [mkStatement "INSERT INTO users (name, age) VALUES ($1, $2)"
                          [JStr "Ana"; JInt 30]])).
Proof. vm_compute. reflexivity. Qed.

Example scenario_update_runs :
  store (snd (Run.process (JObject scenario_update))) =
    mkPg [mkStatement "UPDATE users SET age = $1 WHERE name = $2" [JInt 31; JStr "Ana"]].
Proof. vm_compute. reflexivity. Qed.

Example scenario_delete_unscoped_runs :
  Run.process (JObject scenario_delete_unscoped) =
    (Return false,
     mkWorld (mkMetrics 1 0 1 0 0)
       [InfoProcessing (JStr "evt_3"); ErrDeleteRequiresWhere; ErrInvalidStructure]
       [] (mkPg [])).
Proof. vm_compute. reflexivity. Qed.

Lemma validation_order_and_rejection_witness :
  ∃ w', Run.process (JObject scenario_delete_unscoped) = (Return false, w') ∧
        calls w' = [] ∧ store w' = mkPg [].
Proof.
  apply (@validation_order_and_rejection Run.upper_ascii Pg Run.db
           scenario_delete_unscoped Run.world0).
  intros (_ & _ & _ & _ & _ & Hd).
  destruct Hd as (v & Ev & Hv); [by exists "delete"|].
  injection Ev as <-. discriminate Hv.
Defined.

Lemma delete_without_where_is_rejected_witness :
  fst (@_validate_message Run.upper_ascii Pg scenario_delete_unscoped Run.world0) ≠ Return true ∧
  ∃ w', Run.process (JObject scenario_delete_unscoped) = (Return false, w') ∧
        calls w' = [] ∧ store w' = mkPg [].
Proof.
  apply (@delete_without_where_is_rejected Run.upper_ascii Pg Run.db
           scenario_delete_unscoped Run.world0).
  - exists "delete". split; reflexivity.
  - right. right. reflexivity.
Defined.

Lemma insert_without_data_is_rejected_witness :
  fst (@_validate_message Run.upper_ascii Pg scenario_insert_empty Run.world0) ≠ Return true ∧
  ∃ w', Run.process (JObject scenario_insert_empty) = (Return false, w') ∧
        calls w' = [] ∧ store w' = mkPg [].
Proof.
  apply (@insert_without_data_is_rejected Run.upper_ascii Pg Run.db
           scenario_insert_empty Run.world0).
  - exists "Insert". split; reflexivity.
  - right. right. reflexivity.
Defined.

(** ** Strings *)

Lemma app_cons c s t : String c s +:+ t = String c (s +:+ t).
Proof. reflexivity. Qed.

Lemma app_empty_l s : "" +:+ s = s.
Proof. reflexivity. Qed.

Lemma app_empty_r s : s +:+ "" = s.
Proof. induction s as [|c s IH]; [done|]. by rewrite app_cons, IH. Qed.

Lemma app_assoc_s s t u : (s +:+ t) +:+ u = s +:+ t +:+ u.
Proof. induction s as [|c s IH]; [done|]. by rewrite !app_cons, IH. Qed.

Lemma occurs_refl s : occurs s s.
Proof. exists "", "". by rewrite app_empty_r. Qed.

Lemma occurs_app_r a s t : occurs a t → occurs a (s +:+ t).
Proof. intros (b & e & ->). exists (s +:+ b), e. by rewrite app_assoc_s. Qed.

Lemma occurs_app_l a s t : occurs a s → occurs a (s +:+ t).
Proof. intros (b & e & ->). exists b, (e +:+ t). by rewrite !app_assoc_s. Qed.

Lemma join_cons sep x y l : join sep (x :: y :: l) = x +:+ sep +:+ join sep (y :: l).
Proof. reflexivity. Qed.

Lemma join_more sep x l : l ≠ [] → join sep (x :: l) = x +:+ sep +:+ join sep l.
Proof. by destruct l. Qed.

Lemma occurs_join sep x l : x ∈ l → occurs x (join sep l).
Proof.
  induction l as [|y [|z l] IH]; intros Hx.
  - by apply elem_of_nil in Hx.
  - apply list_elem_of_singleton in Hx as ->. apply occurs_refl.
  - rewrite join_cons. apply elem_of_cons in Hx as [-> | Hx].
    + apply occurs_app_l, occurs_refl.
    + by apply occurs_app_r, occurs_app_r, IH.
Qed.

(** ** DatabaseClient: the statements *)

Lemma placeholder_inj n m : placeholder n = placeholder m → n = m.
Proof. unfold placeholder. intros Hp. by simplify_eq. Qed.

Lemma insert_placeholders n :
  map (λ i, "$" +:+ pretty (i + 1)) (seq 0 n) = placeholder <$> seq 1 n.
Proof.
  rewrite <- fmap_S_seq, <- list_fmap_compose. apply list_fmap_ext.
  intros i x _. simpl. unfold placeholder. by rewrite Nat.add_1_r.
Qed.

Lemma set_assignments (offset : nat) (columns : list string) :
  imap (λ i k, k +:+ " = $" +:+ pretty (i + 1 + offset)) columns =
  imap (λ i column, assignment column (S offset + i)) columns.
Proof.
  apply imap_ext. intros i k _. unfold assignment, placeholder.
  by replace (i + 1 + offset) with (S offset + i) by lia.
Qed.

Lemma first_assignments (columns : list string) :
  imap (λ i k, k +:+ " = $" +:+ pretty (i + 1)) columns =
  imap (λ i column, assignment column (1 + i)) columns.
Proof.
  apply imap_ext. intros i k _. unfold assignment, placeholder.
  by replace (i + 1) with (1 + i) by lia.
Qed.

Lemma insert_query_text table data :
  query (insert_statement table data) =
    "INSERT INTO " +:+ table +:+ " (" +:+ join ", " (keys data) +:+ ") VALUES (" +:+
    placeholder_list 1 (length data) +:+ ")".
Proof. unfold insert_statement, placeholder_list. simpl. by rewrite insert_placeholders. Qed.

Lemma update_query_text table data where_ :
  query (update_statement table data where_) =
    "UPDATE " +:+ table +:+ " SET " +:+ assignments ", " 1 (keys data) +:+
    " WHERE " +:+ assignments " AND " (1 + length data) (keys where_).
Proof.
  unfold update_statement, assignments. simpl.
  by rewrite (set_assignments (length data)), first_assignments.
Qed.

Lemma delete_query_text table where_ :
  query (delete_statement table where_) =
    "DELETE FROM " +:+ table +:+ " WHERE " +:+ assignments " AND " 1 (keys where_).
Proof. unfold delete_statement, assignments. simpl. by rewrite first_assignments. Qed.

Lemma values_lookup (d : dict) i k v : d !! i = Some (k, v) → values d !! i = Some v.
Proof. intros Hd. unfold values. by rewrite list_lookup_fmap, Hd. Qed.

Lemma keys_lookup (d : dict) i k v : d !! i = Some (k, v) → keys d !! i = Some k.
Proof. intros Hd. unfold keys. by rewrite list_lookup_fmap, Hd. Qed.

Lemma keys_length (d d' : dict) : keys d' = keys d → length d' = length d.
Proof. unfold keys. intros Hk. by rewrite <- (length_fmap fst d'), Hk, length_fmap. Qed.

Lemma parameter_lookup st i v : args st !! i = Some v → parameter st (1 + i) = Some v.
Proof. done. Qed.

Lemma where_values_lookup (data where_ : dict) j k v :
  where_ !! j = Some (k, v) →
  (values data ++ values where_) !! (length data + j) = Some v.
Proof.
  intros Hw. rewrite lookup_app_r; unfold values; rewrite length_fmap; [|lia].
  replace (length data + j - length data) with j by lia.
  by rewrite list_lookup_fmap, Hw.
Qed.

Lemma occurs_assignment k n : occurs (k +:+ " = $") (assignment k n).
Proof.
  exists "", (pretty n). unfold assignment, placeholder. simpl.
  by rewrite app_assoc_s.
Qed.

Lemma occurs_trans a b c : occurs a b → occurs b c → occurs a c.
Proof.
  intros (x & y & ->) (x' & y' & ->). exists (x' +:+ x), (y +:+ y').
  by rewrite !app_assoc_s.
Qed.

Lemma occurs_assignments sep first columns k :
  k ∈ columns → occurs (k +:+ " = $") (assignments sep first columns).
Proof.
  intros (i & Hi)%list_elem_of_lookup.
  apply occurs_trans with (assignment k (first + i)); [apply occurs_assignment|].
  apply occurs_join.
  apply (elem_of_lookup_imap_2 (λ i column, assignment column (first + i)) _ _ _ Hi).
Qed.

(** C5: for every table name and every data and where mapping (the
    non-empty ones included), the statements built by insert, update and
    delete carry every mapping value as a bound argument: the text of the
    statement is the same for all mappings with the same keys, so no value
    is part of it; the value of the i-th entry is the argument that the
    placeholder numbered i+1 denotes; and in update the placeholders of the
    WHERE clause are numbered after the last placeholder of the SET clause,
    so no placeholder of one clause is a placeholder of the other. *)
Theorem values_are_bound_parameters (table : string) (data where_ : dict) :
  (∀ data' where_' : dict, keys data' = keys data → keys where_' = keys where_ →
     query (insert_statement table data') = query (insert_statement table data) ∧
     query (update_statement table data' where_') =
       query (update_statement table data where_) ∧
     query (delete_statement table where_') = query (delete_statement table where_)) ∧
  (query (insert_statement table data) =
     "INSERT INTO " +:+ table +:+ " (" +:+ join ", " (keys data) +:+ ") VALUES (" +:+
     placeholder_list 1 (length data) +:+ ")" ∧
   ∀ i k v, data !! i = Some (k, v) →
     keys data !! i = Some k ∧
     (placeholder <$> seq 1 (length data)) !! i = Some (placeholder (1 + i)) ∧
     parameter (insert_statement table data) (1 + i) = Some v) ∧
  (query (update_statement table data where_) =
     "UPDATE " +:+ table +:+ " SET " +:+ assignments ", " 1 (keys data) +:+
     " WHERE " +:+ assignments " AND " (1 + length data) (keys where_) ∧
   (∀ i k v, data !! i = Some (k, v) →
      parameter (update_statement table data where_) (1 + i) = Some v) ∧
   (∀ j k v, where_ !! j = Some (k, v) →
      parameter (update_statement table data where_) (1 + length data + j) = Some v) ∧
   (∀ i j, i < length data → placeholder (1 + i) ≠ placeholder (1 + length data + j))) ∧
  (query (delete_statement table where_) =
     "DELETE FROM " +:+ table +:+ " WHERE " +:+ assignments " AND " 1 (keys where_) ∧
   ∀ j k v, where_ !! j = Some (k, v) →
     parameter (delete_statement table where_) (1 + j) = Some v).
Proof.
  split; [|split; [|split]].
  - intros data' where_' Hd Hw.
    rewrite !insert_query_text, !update_query_text, !delete_query_text.
    by rewrite Hd, Hw, (keys_length _ _ Hd).
  - split; [apply insert_query_text|]. intros i k v Hi. split; [by eapply keys_lookup|].
    split; [|by apply parameter_lookup, (values_lookup _ _ k)].
    rewrite list_lookup_fmap.
    assert (seq 1 (length data) !! i = Some (1 + i)) as ->; [|done].
    apply lookup_seq. split; [done|]. by eapply lookup_lt_Some.
  - split; [apply update_query_text|]. split; [|split].
    + intros i k v Hi. apply parameter_lookup. simpl.
      apply lookup_app_l_Some. by apply (values_lookup _ _ k).
    + intros j k v Hj. apply (parameter_lookup _ (length data + j)). simpl.
      by apply (where_values_lookup _ _ _ k).
    + intros i j Hi Heq%placeholder_inj. lia.
  - split; [apply delete_query_text|]. intros j k v Hj.
    by apply parameter_lookup, (values_lookup _ _ k).
Qed.

Example update_statement_scenario :
  update_statement "users" [("age", JInt 31)] [("name", JStr "Ana")] =
    mkStatement "UPDATE users SET age = $1 WHERE name = $2" [JInt 31; JStr "Ana"].
Proof. vm_compute. reflexivity. Qed.

Example insert_statement_same_text :
  query (insert_statement "users" [("name", JStr "Ana"); ("age", JInt 30)]) =
  query (insert_statement "users" [("name", JStr "'); DROP TABLE users; --"); ("age", JNull)]).
Proof. vm_compute. reflexivity. Qed.

(** C6: for every table name and every key of the data and where
    mappings, insert, update and delete put the table name and the column
    names into the statement text as they are, with no quoting around them
    and no placeholder in their place: the table name directly follows the
    keyword of the statement, every key occurs in the text, and the bound
    arguments are the mapping values and nothing else. *)
Theorem identifiers_are_interpolated (table : string) (data where_ : dict) :
  (∃ tail, query (insert_statement table data) =
             "INSERT INTO " +:+ table +:+ " (" +:+ join ", " (keys data) +:+ tail) ∧
  (∃ tail, query (update_statement table data where_) =
             "UPDATE " +:+ table +:+ " SET " +:+ tail) ∧
  (∃ tail, query (delete_statement table where_) =
             "DELETE FROM " +:+ table +:+ " WHERE " +:+ tail) ∧
  (∀ k, k ∈ keys data →
     occurs k (query (insert_statement table data)) ∧
     occurs (k +:+ " = $") (query (update_statement table data where_))) ∧
  (∀ k, k ∈ keys where_ →
     occurs (k +:+ " = $") (query (update_statement table data where_)) ∧
     occurs (k +:+ " = $") (query (delete_statement table where_))) ∧
  args (insert_statement table data) = values data ∧
  args (update_statement table data where_) = (values data ++ values where_) ∧
  args (delete_statement table where_) = values where_.
Proof.
  rewrite insert_query_text, update_query_text, delete_query_text.
  repeat apply conj; try done; try (eexists; reflexivity).
  - intros k Hk. split.
    + do 3 apply occurs_app_r. by apply occurs_app_l, occurs_join.
    + do 3 apply occurs_app_r. by apply occurs_app_l, occurs_assignments.
  - intros k Hk. split.
    + do 5 apply occurs_app_r. by apply occurs_assignments.
    + do 3 apply occurs_app_r. by apply occurs_assignments.
Qed.

Example delete_statement_with_crafted_table :
  delete_statement "users; DROP TABLE audit; --" [("id", JInt 7)] =
    mkStatement "DELETE FROM users; DROP TABLE audit; -- WHERE id = $1" [JInt 7].
Proof. vm_compute. reflexivity. Qed.

Example insert_statement_with_crafted_column :
  insert_statement "users" [("name) VALUES ('x'); --", JStr "Ana")] =
    mkStatement "INSERT INTO users (name) VALUES ('x'); --) VALUES ($1)" [JStr "Ana"].
Proof. vm_compute. reflexivity. Qed.

(** ** PubSubSubscriber: the acknowledgment decision *)

Section CallbackFacts.
Context `{FloatText} {W : Type} (process : json → M W bool).

End CallbackFacts.

(** ** PubSubSubscriber: flow control *)

Lemma remove_first_length id l : length (remove_first id l) ≤ length l.
Proof.
  induction l as [|x l IH]; simpl; [done|].
  destruct (String.eqb id x); simpl; lia.
Qed.

Lemma flow_step_bounded fc out e :
  length out ≤ max_messages fc → length (flow_step fc out e) ≤ max_messages fc.
Proof.
  intros Hout. destruct e as [id|id]; simpl.
  - destruct (Nat.ltb_spec (length out) (max_messages fc)); [|done].
    rewrite length_app. simpl. lia.
  - pose proof (remove_first_length id out). lia.
Qed.

Lemma flow_run_bounded fc events out :
  length out ≤ max_messages fc →
  length (foldl (flow_step fc) out events) ≤ max_messages fc.
Proof.
  revert out. induction events as [|e events IH]; intros out Hout; simpl; [done|].
  by apply IH, flow_step_bounded.
Qed.

(** The cap is the same for every subscriber: no constructor argument and
    no field reaches the flow control passed to [subscribe]. *)
Lemma start_consuming_flow_control self :
  ∃ sub, streaming_pull_future (start_consuming self) = Some sub ∧
         flow_control sub = mkFlowControl 10 ∧
         is_consuming (start_consuming self) = true.
Proof. by eexists. Qed.

(** C10, as the spec states it, asks for a cap that can be configured:
    some subscriber would then run with a cap other than 10.  There is
    none. *)
Lemma flow_cap_is_not_configurable :
  ¬ ∃ self sub, streaming_pull_future (start_consuming self) = Some sub ∧
                max_messages (flow_control sub) ≠ 10.
Proof. intros (self & sub & [= <-] & Hk). by apply Hk. Qed.

(** C10, amended: at every point while the consumer is running (after
    any run of broker events following [start_consuming]), at most 10
    messages are outstanding; the cap is the constant 10 that
    [start_consuming] passes as flow control when it subscribes, for every
    subscriber, and the broker client's flow control enforces it. *)
Theorem outstanding_bounded_by_ten (self : PubSubSubscriber) (events : list broker_event) :
  ∃ sub out,
    streaming_pull_future (start_consuming self) = Some sub ∧
    max_messages (flow_control sub) = 10 ∧
    outstanding_after (start_consuming self) events = Some out ∧
    length out ≤ 10.
Proof.
  eexists _, _. split; [reflexivity|]. split; [reflexivity|]. split; [reflexivity|].
  apply (flow_run_bounded (mkFlowControl 10)). simpl. lia.
Qed.

Example flow_control_holds_back :
  outstanding_after (start_consuming (new_subscriber "lab" "ops"))
    (Offer <$> ["1"; "2"; "3"; "4"; "5"; "6"; "7"; "8"; "9"; "10"; "11"; "12"]) =
  Some ["1"; "2"; "3"; "4"; "5"; "6"; "7"; "8"; "9"; "10"].
Proof. vm_compute. reflexivity. Qed.

(** ** PubSubPublisher *)

Section PublisherFacts.
Context `{FloatText} `{Clock} (topic_path : string).

Lemma send_all_runs messages : ∀ first size b,
  send_all topic_path first size messages b =
    (Return ((λ k, script b (length (published b) + k)) <$> seq 0 (length messages)),
     mkBroker (script b)
       (published b ++ imap (batch_send topic_path first size (length (published b))) messages)).
Proof.
  induction messages as [|data rest IH]; intros first size b.
  - simpl. run. rewrite app_nil_r. by destruct b.
  - simpl. unfold utcnow, client_publish. run. rewrite IH. simpl.
    rewrite length_app, <- app_assoc. simpl.
    f_equal; [f_equal|f_equal].
    + f_equal; [by rewrite Nat.add_0_r|].
      rewrite <- fmap_S_seq, <- list_fmap_compose. apply list_fmap_ext.
      intros i k _. simpl. f_equal. lia.
    + f_equal. f_equal.
      * unfold batch_send. by rewrite !Nat.add_0_r.
      * apply imap_ext. intros i x _. unfold batch_send. simpl.
        replace (S (first + i)) with (first + S i) by lia.
        by replace (length (published b) + 1 + i) with (length (published b) + S i) by lia.
Qed.


(** One call of [publish_message] is one send and one wait: the call
    returns what that single future gives and never sends again. *)
Lemma publish_message_sends_once (data : dict) (b : Broker) :
  ∃ p,
    publish_message topic_path data b =
      (future_result 30 (script b (length (published b))),
       mkBroker (script b) (published b ++ [p])) ∧
    payload p = dumps (JObject data).
Proof.
  unfold publish_message, utcnow, client_publish, _wait_for_publish, _get_result. run.
  eexists. split; [by destruct (future_result 30 (script b (length (published b))))|].
  reflexivity.
Qed.
End PublisherFacts.

(** C4 at the failing input: on a broker whose first three sends fail
    transiently and whose fourth succeeds, [publish_message] sends once and
    raises the first failure, where the retry policy of the spec sends four
    times and returns the identifier of the fourth attempt. *)
Theorem publish_message_does_not_retry :
  (let '(r, b') := Producer.publish scenario_insert flaky_broker in
   r = Raise ServiceUnavailable ∧ length (published b') = 1) ∧
  (let '(r, b') := Producer.publish_as_specified scenario_insert flaky_broker in
   r = Return "m4" ∧ length (published b') = 4).
Proof. vm_compute. done. Qed.

(** The single wait is bounded by 30 time units, not by the 300 of the
    policy: an answer after 45 units is a failure of the call. *)
Example publish_message_waits_thirty :
  fst (Producer.publish scenario_insert (mkBroker (λ _, mkFuture 45 (Sent "m1")) [])) =
    Raise TimeoutError.
Proof. vm_compute. reflexivity. Qed.

(** ** The payload: strings *)

Lemma scanstring_escape_char c t :
  scanstring (escape_char c +:+ t) =
  '(str, rest) ← scanstring t; Some (String c str, rest).
Proof. destruct c as [[] [] [] [] [] [] [] []]; reflexivity. Qed.

Lemma scanstring_escape s rest :
  scanstring (escape s +:+ String dquote rest) = Some (s, rest).
Proof.
  induction s as [|c s IH]; [done|].
  simpl escape. by rewrite app_assoc_s, scanstring_escape_char, IH.
Qed.

(** ** The payload: integers *)

Lemma pretty_N_go_app x s t : pretty_N_go x s +:+ t = pretty_N_go x (s +:+ t).
Proof.
  revert s. induction (N.lt_wf_0 x) as [x _ IH]; intros s.
  assert (x = 0 ∨ 0 < x)%N as [-> | Hx] by lia; [by rewrite !pretty_N_go_0|].
  rewrite (pretty_N_go_step x s), (pretty_N_go_step x (s +:+ t)) by done.
  rewrite IH by (by apply N.div_lt). done.
Qed.

Lemma pretty_N_char_digit d :
  (d < 10)%N →
  is_digit (pretty_N_char d) = true ∧ digit_value (pretty_N_char d) = d ∧
  (d ≠ 0%N → Ascii.eqb (pretty_N_char d) "0" = false).
Proof.
  intros Hd.
  assert (d = 0 ∨ d = 1 ∨ d = 2 ∨ d = 3 ∨ d = 4 ∨ d = 5 ∨ d = 6 ∨ d = 7 ∨ d = 8 ∨ d = 9)%N
    as Hcases by lia.
  repeat (destruct Hcases as [-> | Hcases]); try subst d; done.
Qed.

Lemma read_digits_pretty x :
  (0 < x)%N →
  ∃ k : N, ∀ acc s, read_digits acc (pretty_N_go x s) = read_digits (acc * 10 ^ k + x) s.
Proof.
  induction (N.lt_wf_0 x) as [x _ IH]; intros Hx.
  pose proof (N.div_mod x 10 ltac:(lia)) as Hdm.
  pose proof (N.mod_lt x 10 ltac:(lia)) as Hm.
  destruct (pretty_N_char_digit (x `mod` 10)%N Hm) as (Hdig & Hval & _).
  assert (x `div` 10 = 0 ∨ 0 < x `div` 10)%N as [Hq | Hq] by lia.
  - exists 1%N. intros acc s. rewrite pretty_N_go_step, Hq, pretty_N_go_0 by done.
    simpl. rewrite Hdig, Hval. f_equal. lia.
  - destruct (IH (x `div` 10)%N) as (k & Hk); [by apply N.div_lt|done|].
    exists (k + 1)%N. intros acc s. rewrite pretty_N_go_step, Hk by done.
    simpl. rewrite Hdig, Hval. f_equal. rewrite N.pow_add_r. lia.
Qed.

Lemma pretty_N_go_head x s :
  (0 < x)%N →
  ∃ c t, pretty_N_go x s = String c t ∧ is_digit c = true ∧ Ascii.eqb c "0" = false.
Proof.
  revert s. induction (N.lt_wf_0 x) as [x _ IH]; intros s Hx.
  pose proof (N.div_mod x 10 ltac:(lia)) as Hdm.
  pose proof (N.mod_lt x 10 ltac:(lia)) as Hm.
  rewrite pretty_N_go_step by done.
  assert (x `div` 10 = 0 ∨ 0 < x `div` 10)%N as [Hq | Hq] by lia.
  - rewrite Hq, pretty_N_go_0.
    destruct (pretty_N_char_digit (x `mod` 10)%N Hm) as (Hdig & _ & Hnz).
    eexists _, _. split; [done|]. split; [done|]. apply Hnz. lia.
  - apply IH; [by apply N.div_lt|done].
Qed.

Lemma read_digits_stop acc rest : ends_number rest = true → read_digits acc rest = (acc, rest).
Proof.
  destruct rest as [|c rest]; [done|]. simpl.
  destruct (is_digit c); [done|done].
Qed.

Lemma read_int_pretty x rest :
  (0 < x)%N → ends_number rest = true → read_int (pretty_N_go x rest) = Some (x, rest).
Proof.
  intros Hx Hrest.
  destruct (pretty_N_go_head x rest Hx) as (c & t & Heq & Hdig & Hnz).
  destruct (read_digits_pretty x Hx) as (k & Hk).
  pose proof (Hk 0%N rest) as Hread. rewrite Heq in Hread. simpl in Hread.
  rewrite Hdig in Hread. rewrite Heq. simpl. rewrite Hnz, Hdig.
  change (0 * 10 + digit_value c)%N with (digit_value c) in Hread.
  rewrite N.mul_0_l, N.add_0_l in Hread.
  by rewrite Hread, read_digits_stop.
Qed.

Lemma read_frac_stop rest : ends_number rest = true → read_frac rest = ("", rest).
Proof.
  destruct rest as [|c rest]; [done|]. simpl. intros Hc.
  destruct (Ascii.eqb c "."); [|done]. by rewrite !orb_true_r in Hc.
Qed.

Lemma read_exp_stop rest : ends_number rest = true → read_exp rest = ("", rest).
Proof.
  destruct rest as [|c rest]; [done|]. simpl. intros Hc.
  destruct (Ascii.eqb c "e"), (Ascii.eqb c "E"); try done;
    by rewrite ?orb_true_r in Hc.
Qed.

Section NumberFacts.
Context `{FloatText}.

Lemma scan_number_natural (negative : bool) (x : N) (rest : string) :
  (0 < x)%N → ends_number rest = true →
  scan_number ((if negative then "-" else "") +:+ pretty_N_go x rest) =
    Some (JInt (if negative then - Z.of_N x else Z.of_N x), rest).
Proof.
  intros Hx Hrest. unfold scan_number.
  destruct (pretty_N_go_head x rest Hx) as (c & t & Heq & Hdig & Hnz).
  assert (Ascii.eqb c "-" = false) as Hminus.
  { destruct (Ascii.eqb_spec c "-") as [-> |]; done. }
  destruct negative; rewrite ?app_cons, app_empty_l; simpl.
  - rewrite read_int_pretty, read_frac_stop, read_exp_stop by done. done.
  - rewrite Heq, Hminus, <- Heq.
    rewrite read_int_pretty, read_frac_stop, read_exp_stop by done. done.
Qed.

Lemma scan_number_int (z : Z) rest :
  ends_number rest = true → scan_number (pretty z +:+ rest) = Some (JInt z, rest).
Proof.
  intros Hrest. destruct z as [|p|p]; unfold pretty, pretty_Z.
  - unfold scan_number. simpl. by rewrite read_frac_stop, read_exp_stop.
  - unfold pretty, pretty_positive, pretty, pretty_N.
    case_decide; [done|]. rewrite pretty_N_go_app.
    by apply (scan_number_natural false).
  - unfold pretty, pretty_positive, pretty, pretty_N.
    case_decide; [done|]. rewrite app_assoc_s, pretty_N_go_app.
    by apply (scan_number_natural true).
Qed.
End NumberFacts.

(** ** The payload: values *)

Lemma app_length_s s t : String.length (s +:+ t) = String.length s + String.length t.
Proof. induction s as [|c s IH]; [done|]. rewrite app_cons. simpl. by rewrite IH. Qed.

Lemma skip_ws_head c t : is_ws c = false → skip_ws (String c t) = String c t.
Proof. intros Hc. simpl. by rewrite Hc. Qed.

Lemma digit_opens_value c : is_digit c = true → opens_value c = true.
Proof. destruct c as [[] [] [] [] [] [] [] []]; done. Qed.

Section ValueFacts.
Context `{FloatText}.

Lemma dumps_head v rest :
  wire_value v = true →
  ∃ c t, dumps v +:+ rest = String c t ∧ opens_value c = true.
Proof.
  destruct v as [|[]|z|x|s|l|m]; intros Hv; try done; simpl dumps;
    try (eexists _, _; split; [reflexivity|done]).
  destruct z as [|p|p]; unfold pretty, pretty_Z;
    try (eexists _, _; split; [reflexivity|done]).
  unfold pretty, pretty_positive, pretty, pretty_N. case_decide; [done|].
  rewrite pretty_N_go_app.
  destruct (pretty_N_go_head (N.pos p) ("" +:+ rest)) as (c & t & -> & Hd & _); [done|].
  eexists _, _. split; [done|]. by apply digit_opens_value.
Qed.

Lemma dumps_nonempty v : wire_value v = true → 1 ≤ String.length (dumps v).
Proof.
  intros Hv. destruct (dumps_head v "" Hv) as (c & t & Heq & _).
  rewrite app_empty_r in Heq. rewrite Heq. simpl. lia.
Qed.

Lemma skip_ws_dumps v rest :
  wire_value v = true → skip_ws (dumps v +:+ rest) = dumps v +:+ rest.
Proof.
  intros Hv. destruct (dumps_head v rest Hv) as (c & t & -> & Hc).
  apply skip_ws_head. unfold opens_value in Hc. by destruct (is_ws c).
Qed.
End ValueFacts.

(** A [dict] is rebuilt from its own pairs as it was. *)
Lemma dict_set_fresh k v (d : dict) : k ∉ keys d → dict_set k v d = d ++ [(k, v)].
Proof.
  induction d as [|[k' v'] d IH]; intros Hk; simpl; [done|].
  unfold keys in Hk. simpl in Hk. apply not_elem_of_cons in Hk as [Hne Hk].
  destruct (String.eqb_spec k k'); [done|]. by rewrite IH.
Qed.

Lemma dict_of_pairs_nodup (m : dict) : NoDup (keys m) → dict_of_pairs m = m.
Proof.
  unfold dict_of_pairs. intros Hm.
  cut (∀ acc : dict, NoDup (keys (acc ++ m)) →
         foldl (λ d kv, dict_set kv.1 kv.2 d) acc m = acc ++ m).
  { intros Hcut. by apply (Hcut []). }
  clear Hm. induction m as [|[k v] m IH]; intros acc Hnd; simpl.
  - by rewrite app_nil_r.
  - rewrite dict_set_fresh.
    + rewrite IH; rewrite <- app_assoc; done.
    + unfold keys in Hnd. rewrite fmap_app in Hnd. simpl in Hnd.
      apply list.NoDup_app in Hnd as (_ & Hdisj & _). intros Hin.
      apply (Hdisj k Hin). by left.
Qed.

Lemma depth_element v (l : list json) :
  v ∈ l → depth v ≤ foldr (λ x n, Nat.max (depth x) n) 0 l.
Proof.
  induction l as [|x l IH]; intros Hv; [by apply elem_of_nil in Hv|].
  simpl. apply elem_of_cons in Hv as [-> | Hv]; [lia|]. specialize (IH Hv). lia.
Qed.

Lemma depth_member k v (m : dict) :
  (k, v) ∈ m → depth v ≤ foldr (λ kv n, Nat.max (depth kv.2) n) 0 m.
Proof.
  induction m as [|x m IH]; intros Hv; [by apply elem_of_nil in Hv|].
  simpl. apply elem_of_cons in Hv as [<- | Hv]; [simpl; lia|]. specialize (IH Hv). lia.
Qed.

Section RoundTrip.
Context `{FloatText}.

Local Arguments scan_number : simpl never.
Local Arguments String.append !_ _ / : simpl nomatch.

Lemma scan_once_number fuel c t r :
  is_digit c = true ∨ c = "-"%char →
  scan_number (String c t) = Some r →
  scan_once (S fuel) (String c t) = Some r.
Proof.
  intros [Hd | ->] Hn.
  - destruct c as [[] [] [] [] [] [] [] []]; try discriminate Hd; simpl; by rewrite Hn.
  - simpl. by rewrite Hn.
Qed.

Lemma join_dumps_head v (l : list json) t :
  ∃ t', join ", " (map dumps (v :: l)) +:+ t = dumps v +:+ t'.
Proof.
  destruct l as [|v2 l]; [by eexists|].
  change (map dumps (v :: v2 :: l)) with (dumps v :: map dumps (v2 :: l)).
  rewrite join_more, app_assoc_s by done. by eexists.
Qed.

Lemma scan_elements_dumps fuel (l : list json) :
  reads_back fuel →
  ∀ n rest, l ≠ [] → length l ≤ n →
    (∀ v, v ∈ l → wire_value v = true ∧ depth v < fuel) →
    scan_elements (scan_once fuel) n (join ", " (map dumps l) +:+ String "]" rest) =
      Some (l, rest).
Proof.
  intros Hback. induction l as [|v l IHl]; intros n rest Hne Hlen Hall; [done|].
  destruct n as [|n]; [simpl in Hlen; lia|].
  destruct (Hall v) as [Hv Hd]; [by left|].
  destruct l as [|v2 l].
  - change (join ", " (map dumps [v])) with (dumps v). simpl scan_elements.
    rewrite Hback by done. simpl. done.
  - change (map dumps (v :: v2 :: l)) with (dumps v :: map dumps (v2 :: l)).
    rewrite join_more, !app_assoc_s by done.
    destruct (join_dumps_head v2 l (String "]" rest)) as (t' & Ht').
    destruct (Hall v2) as [Hv2 _]; [right; by left|].
    assert (skip_ws (join ", " (map dumps (v2 :: l)) +:+ String "]" rest) =
            join ", " (map dumps (v2 :: l)) +:+ String "]" rest) as Hskip.
    { rewrite Ht'. by apply skip_ws_dumps. }
    specialize (IHl n rest).
    set (tail := join ", " (map dumps (v2 :: l)) +:+ String "]" rest) in *.
    simpl scan_elements. rewrite Hback by done. simpl. rewrite Hskip.
    rewrite IHl; [done|done|simpl in *; lia|].
    intros v' Hv'. apply Hall. by right.
Qed.

Lemma member_text_app k v t :
  member_text (k, v) +:+ t =
  String dquote (escape k +:+ String dquote (String ":" (String " " (dumps v +:+ t)))).
Proof.
  unfold member_text, encode_basestring. simpl.
  by rewrite !app_assoc_s.
Qed.

Lemma join_members_head kv (m : dict) t :
  ∃ t', join ", " (map member_text (kv :: m)) +:+ t = String dquote t'.
Proof.
  destruct kv as [k v]. destruct m as [|kv2 m].
  - change (join ", " (map member_text [(k, v)])) with (member_text (k, v)).
    rewrite member_text_app. by eexists.
  - change (map member_text ((k, v) :: kv2 :: m))
      with (member_text (k, v) :: map member_text (kv2 :: m)).
    rewrite join_more, app_assoc_s, member_text_app by done. by eexists.
Qed.

Lemma scan_members_dumps fuel (m : dict) :
  reads_back fuel →
  ∀ n rest, m ≠ [] → length m ≤ n →
    (∀ k v, (k, v) ∈ m → wire_value v = true ∧ depth v < fuel) →
    scan_members (scan_once fuel) n (join ", " (map member_text m) +:+ String "}" rest) =
      Some (m, rest).
Proof.
  intros Hback. induction m as [|[k v] m IHm]; intros n rest Hne Hlen Hall; [done|].
  destruct n as [|n]; [simpl in Hlen; lia|].
  destruct (Hall k v) as [Hv Hd]; [by left|].
  destruct m as [|kv2 m].
  - change (join ", " (map member_text [(k, v)])) with (member_text (k, v)).
    rewrite member_text_app. simpl scan_members.
    rewrite scanstring_escape. simpl.
    rewrite skip_ws_dumps, Hback by done. simpl. done.
  - change (map member_text ((k, v) :: kv2 :: m))
      with (member_text (k, v) :: map member_text (kv2 :: m)).
    rewrite join_more, !app_assoc_s, member_text_app by done.
    destruct (join_members_head kv2 m (String "}" rest)) as (t' & Ht').
    specialize (IHm n rest).
    set (tail := join ", " (map member_text (kv2 :: m)) +:+ String "}" rest) in *.
    simpl scan_members. rewrite scanstring_escape. simpl.
    rewrite skip_ws_dumps, Hback by done. simpl.
    assert (skip_ws tail = tail) as -> by (by rewrite Ht').
    rewrite IHm; [done|done|simpl in *; lia|].
    intros k' v' Hv'. apply (Hall k'). by right.
Qed.

Lemma pretty_Z_head (z : Z) rest :
  ∃ c t, pretty z +:+ rest = String c t ∧ (is_digit c = true ∨ c = "-"%char).
Proof.
  destruct z as [|p|p]; unfold pretty, pretty_Z.
  - eexists _, _. split; [reflexivity|by left].
  - unfold pretty, pretty_positive, pretty, pretty_N. case_decide; [done|].
    rewrite pretty_N_go_app.
    destruct (pretty_N_go_head (N.pos p) ("" +:+ rest)) as (c & t & -> & Hd & _); [done|].
    eexists _, _. split; [done|by left].
  - eexists _, _. split; [reflexivity|by right].
Qed.

Lemma join_dumps_length (l : list json) :
  (∀ v, v ∈ l → wire_value v = true) →
  length l ≤ String.length (join ", " (map dumps l)).
Proof.
  induction l as [|v l IH]; intros Hall; [done|].
  pose proof (dumps_nonempty v (Hall v ltac:(by left))) as Hv.
  destruct l as [|v2 l]; [simpl; lia|].
  change (map dumps (v :: v2 :: l)) with (dumps v :: map dumps (v2 :: l)).
  rewrite join_more, !app_length_s by done.
  assert (length (v2 :: l) ≤ String.length (join ", " (map dumps (v2 :: l)))) as IH'.
  { apply IH. intros v' Hv'. apply Hall. by right. }
  simpl in *. lia.
Qed.

Lemma join_members_length (m : dict) :
  length m ≤ String.length (join ", " (map member_text m)).
Proof.
  induction m as [|[k v] m IH]; [done|].
  assert (1 ≤ String.length (member_text (k, v))) as Hkv.
  { unfold member_text, encode_basestring. simpl. lia. }
  destruct m as [|kv2 m]; [simpl in *; lia|].
  change (map member_text ((k, v) :: kv2 :: m))
    with (member_text (k, v) :: map member_text (kv2 :: m)).
  rewrite join_more, !app_length_s by done. simpl in *. lia.
Qed.

Lemma wire_elements (l : list json) :
  forallb wire_value l = true → ∀ v, v ∈ l → wire_value v = true.
Proof.
  intros Hl v Hv. rewrite forallb_forall in Hl. by apply Hl, list_elem_of_In.
Qed.

Lemma wire_members (m : dict) :
  forallb (λ kv, utf8_valid kv.1 && wire_value kv.2) m = true →
  ∀ k v, (k, v) ∈ m → utf8_valid k = true ∧ wire_value v = true.
Proof.
  intros Hm k v Hv. rewrite forallb_forall in Hm.
  apply list_elem_of_In, Hm in Hv. simpl in Hv. by apply andb_true_iff in Hv.
Qed.

Local Arguments scan_elements : simpl never.
Local Arguments scan_members : simpl never.

(** The scanner reads back every wire value from its text, whatever
    follows it, once the fuel exceeds the nesting depth. *)
Lemma scan_once_dumps fuel : reads_back fuel.
Proof.
  induction fuel as [|fuel IH]; intros v rest Hv Hd Hrest; [lia|].
  destruct v as [|[]|z|x|s|l|m]; try done.
  - destruct (pretty_Z_head z rest) as (c & t & Heq & Hc).
    simpl dumps. rewrite Heq. apply scan_once_number; [done|].
    rewrite <- Heq. by apply scan_number_int.
  - simpl dumps. unfold encode_basestring. rewrite app_cons, app_assoc_s. simpl.
    by rewrite scanstring_escape.
  - destruct l as [|v l]; [done|].
    assert (forallb wire_value (v :: l) = true) as Hl by exact Hv.
    simpl in Hd.
    assert (∀ v', v' ∈ v :: l → wire_value v' = true) as Hall by (by apply wire_elements).
    assert (∀ v', v' ∈ v :: l → wire_value v' = true ∧ depth v' < fuel) as Hall'.
    { intros v' Hv'. split; [by apply Hall|].
      pose proof (depth_element v' (v :: l) Hv'). simpl in *. lia. }
    pose proof (join_dumps_length (v :: l) Hall) as Hlen.
    pose proof (scan_elements_dumps fuel (v :: l) IH
                  (S (String.length (join ", " (map dumps (v :: l)) +:+ String "]" rest)))
                  rest ltac:(done)) as Hscan.
    destruct (join_dumps_head v l (String "]" rest)) as (t' & Ht').
    destruct (dumps_head v t' (Hall v ltac:(by left))) as (c & t & Hhead & Hc).
    change (dumps (JList (v :: l))) with ("[" +:+ join ", " (map dumps (v :: l)) +:+ "]").
    rewrite !app_assoc_s. change ("]" +:+ rest) with (String "]" rest).
    rewrite app_cons, app_empty_l.
    set (body := join ", " (map dumps (v :: l)) +:+ String "]" rest) in *.
    simpl scan_once.
    assert (skip_ws body = body) as ->.
    { rewrite Ht'. apply skip_ws_dumps, Hall. by left. }
    rewrite Hscan; [|unfold body; rewrite app_length_s; lia|done].
    rewrite Ht', Hhead. unfold opens_value in Hc.
    destruct (Ascii.eqb c "]"); [by rewrite andb_false_r in Hc|done].
  - destruct m as [|[k v] m]; [done|].
    assert (forallb (λ kv, utf8_valid kv.1 && wire_value kv.2) ((k, v) :: m) &&
            bool_decide (NoDup (keys ((k, v) :: m))) = true) as Hm by exact Hv.
    simpl in Hd.
    apply andb_true_iff in Hm as [Hm Hnd]. apply bool_decide_eq_true in Hnd.
    assert (∀ k' v', (k', v') ∈ (k, v) :: m → wire_value v' = true ∧ depth v' < fuel)
      as Hall.
    { intros k' v' Hv'. split; [by eapply wire_members|].
      pose proof (depth_member k' v' ((k, v) :: m) Hv'). simpl in *. lia. }
    pose proof (join_members_length ((k, v) :: m)) as Hlen.
    pose proof (scan_members_dumps fuel ((k, v) :: m) IH
                  (S (String.length (join ", " (map member_text ((k, v) :: m))
                                     +:+ String "}" rest)))
                  rest ltac:(done)) as Hscan.
    destruct (join_members_head (k, v) m (String "}" rest)) as (t' & Ht').
    change (dumps (JObject ((k, v) :: m)))
      with ("{" +:+ join ", " (map member_text ((k, v) :: m)) +:+ "}").
    rewrite !app_assoc_s. change ("}" +:+ rest) with (String "}" rest).
    rewrite app_cons, app_empty_l.
    set (body := join ", " (map member_text ((k, v) :: m)) +:+ String "}" rest) in *.
    simpl scan_once.
    assert (skip_ws body = body) as -> by (by rewrite Ht').
    rewrite Hscan; [|unfold body; rewrite app_length_s; lia|done].
    rewrite Ht'. simpl. by rewrite dict_of_pairs_nodup.
Qed.
End RoundTrip.

(** Induction on a value, with the hypothesis available for every element
    of a list and every member of a mapping. *)
Lemma json_nested_ind (P : json → Prop) :
  P JNull → (∀ b, P (JBool b)) → (∀ n, P (JInt n)) → (∀ x, P (JFloat x)) →
  (∀ s, P (JStr s)) →
  (∀ l, Forall P l → P (JList l)) →
  (∀ m, Forall (λ kv, P kv.2) m → P (JObject m)) →
  ∀ v, P v.
Proof.
  intros Hnull Hbool Hint Hfloat Hstr Hlist Hobj.
  fix IH 1. intros [|b|n|x|s|l|m].
  - apply Hnull.
  - apply Hbool.
  - apply Hint.
  - apply Hfloat.
  - apply Hstr.
  - apply Hlist. induction l as [|v l IHl]; constructor; [apply IH|exact IHl].
  - apply Hobj. induction m as [|[k v] m IHm]; constructor; [apply IH|exact IHm].
Qed.

(** ** The payload: well-formed UTF-8 *)

Lemma utf8_valid_app a b :
  utf8_valid a = true → utf8_valid b = true → utf8_valid (a +:+ b) = true.
Proof.
  intros Ha Hb. remember (String.length a) as n eqn:Hn.
  assert (String.length a ≤ n) as Hle by lia. clear Hn.
  revert a Ha Hle. induction n as [|n IH]; intros a Ha Hle.
  { destruct a; [done|simpl in Hle; lia]. }
  destruct a as [|b0 a1]; [done|]. rewrite app_cons. simpl in Ha, Hle |- *.
  destruct (between 0 127 b0); [apply IH; [done|lia]|].
  destruct (between 194 223 b0).
  { destruct a1 as [|b1 a2]; [done|]. rewrite app_cons. simpl in Hle.
    apply andb_true_iff in Ha as [-> Ha]. apply IH; [done|lia]. }
  destruct (between 224 239 b0).
  { destruct a1 as [|b1 [|b2 a3]]; [done..|]. rewrite !app_cons. simpl in Hle.
    apply andb_true_iff in Ha as [-> Ha]. apply IH; [done|lia]. }
  destruct (between 240 244 b0); [|done].
  destruct a1 as [|b1 [|b2 [|b3 a4]]]; [done..|]. rewrite !app_cons. simpl in Hle.
  apply andb_true_iff in Ha as [-> Ha]. apply IH; [done|lia].
Qed.

Lemma escape_char_valid c : between 0 127 c = true → utf8_valid (escape_char c) = true.
Proof. destruct c as [[] [] [] [] [] [] [] []]; done. Qed.

Lemma escape_char_high c : between 0 127 c = false → escape_char c = String c "".
Proof. destruct c as [[] [] [] [] [] [] [] []]; done. Qed.

Lemma continuation_high c : continuation c = true → between 0 127 c = false.
Proof. destruct c as [[] [] [] [] [] [] [] []]; done. Qed.

Lemma utf8_valid_escape s : utf8_valid s = true → utf8_valid (escape s) = true.
Proof.
  intros Hs. remember (String.length s) as n eqn:Hn.
  assert (String.length s ≤ n) as Hle by lia. clear Hn.
  revert s Hs Hle. induction n as [|n IH]; intros s Hs Hle.
  { destruct s; [done|simpl in Hle; lia]. }
  destruct s as [|b0 s1]; [done|]. simpl in Hs, Hle. simpl escape.
  destruct (between 0 127 b0) eqn:H0.
  { apply utf8_valid_app; [by apply escape_char_valid|apply IH; [done|lia]]. }
  rewrite (escape_char_high b0 H0), app_cons, app_empty_l.
  destruct (between 194 223 b0) eqn:H2.
  { destruct s1 as [|b1 s2]; [done|]. simpl in Hle.
    apply andb_true_iff in Hs as [Hb1 Hs]. simpl escape.
    rewrite (escape_char_high b1), app_cons, app_empty_l by (by apply continuation_high).
    simpl. rewrite H0, H2, Hb1. apply IH; [done|lia]. }
  destruct (between 224 239 b0) eqn:H3.
  { destruct s1 as [|b1 [|b2 s3]]; [done..|]. simpl in Hle.
    apply andb_true_iff in Hs as [Hb Hs]. apply andb_true_iff in Hb as [Hb1 Hb2].
    assert (continuation b1 = true) as Hc1.
    { destruct (between 224 224 b0); [|destruct (between 237 237 b0)]; try done;
        revert Hb1; clear; destruct b1 as [[] [] [] [] [] [] [] []]; done. }
    simpl escape.
    rewrite (escape_char_high b1), (escape_char_high b2), !app_cons, !app_empty_l
      by (by apply continuation_high).
    simpl. rewrite H0, H2, H3, Hb1, Hb2. apply IH; [done|lia]. }
  destruct (between 240 244 b0) eqn:H4; [|done].
  destruct s1 as [|b1 [|b2 [|b3 s4]]]; [done..|]. simpl in Hle.
  apply andb_true_iff in Hs as [Hb Hs]. apply andb_true_iff in Hb as [Hb Hb3].
  apply andb_true_iff in Hb as [Hb1 Hb2].
  assert (continuation b1 = true) as Hc1.
  { destruct (between 240 240 b0); [|destruct (between 244 244 b0)]; try done;
      revert Hb1; clear; destruct b1 as [[] [] [] [] [] [] [] []]; done. }
  simpl escape.
  rewrite (escape_char_high b1), (escape_char_high b2), (escape_char_high b3),
    !app_cons, !app_empty_l by (by apply continuation_high).
  simpl. rewrite H0, H2, H3, H4, Hb1, Hb2, Hb3. apply IH; [done|lia].
Qed.

Lemma pretty_N_char_ascii d : between 0 127 (pretty_N_char d) = true.
Proof. unfold pretty_N_char. by repeat case_match. Qed.

Lemma pretty_N_go_valid x s : utf8_valid s = true → utf8_valid (pretty_N_go x s) = true.
Proof.
  revert s. induction (N.lt_wf_0 x) as [x _ IH]; intros s Hs.
  assert (x = 0 ∨ 0 < x)%N as [-> | Hx] by lia; [by rewrite pretty_N_go_0|].
  rewrite pretty_N_go_step by done. apply IH; [by apply N.div_lt|].
  simpl. by rewrite pretty_N_char_ascii.
Qed.

Lemma pretty_Z_valid (z : Z) : utf8_valid (pretty z) = true.
Proof.
  destruct z as [|p|p]; unfold pretty, pretty_Z; [done|..];
    unfold pretty, pretty_positive, pretty, pretty_N; (case_decide; [done|]).
  - by apply pretty_N_go_valid.
  - apply utf8_valid_app; [done|by apply pretty_N_go_valid].
Qed.

Lemma utf8_valid_join sep (l : list string) :
  utf8_valid sep = true → Forall (λ x, utf8_valid x = true) l →
  utf8_valid (join sep l) = true.
Proof.
  intros Hsep Hl. induction Hl as [|x l Hx Hl IH]; [done|].
  destruct l as [|y l]; [done|].
  rewrite join_more by done. by repeat apply utf8_valid_app.
Qed.

Lemma encode_basestring_valid s :
  utf8_valid s = true → utf8_valid (encode_basestring s) = true.
Proof.
  intros Hs. unfold encode_basestring.
  change (String dquote ?x) with (String dquote "" +:+ x).
  apply utf8_valid_app; [done|]. apply utf8_valid_app; [by apply utf8_valid_escape|done].
Qed.

Section PayloadFacts.
Context `{FloatText}.

Lemma dumps_valid v : wire_value v = true → utf8_valid (dumps v) = true.
Proof.
  induction v as [|[]|n|x|s|l IH|m IH] using json_nested_ind; intros Hv; try done.
  - apply pretty_Z_valid.
  - by apply encode_basestring_valid.
  - assert (forallb wire_value l = true) as Hl by exact Hv.
    change (dumps (JList l)) with ("[" +:+ join ", " (map dumps l) +:+ "]").
    apply utf8_valid_app; [done|]. apply utf8_valid_app; [|done].
    apply utf8_valid_join; [done|]. apply Forall_fmap, Forall_forall.
    intros v Hin%list_elem_of_In. simpl. rewrite list.Forall_forall in IH.
    apply IH; [done|]. by apply wire_elements with l.
  - assert (forallb (λ kv, utf8_valid kv.1 && wire_value kv.2) m &&
            bool_decide (NoDup (keys m)) = true) as Hm by exact Hv.
    apply andb_true_iff in Hm as [Hm _].
    change (dumps (JObject m)) with ("{" +:+ join ", " (map member_text m) +:+ "}").
    apply utf8_valid_app; [done|]. apply utf8_valid_app; [|done].
    apply utf8_valid_join; [done|]. apply Forall_fmap, Forall_forall.
    intros [k v] Hin%list_elem_of_In. simpl. rewrite list.Forall_forall in IH.
    destruct (wire_members m Hm k v Hin) as [Hk Hv'].
    unfold member_text. simpl.
    apply utf8_valid_app; [by apply encode_basestring_valid|].
    apply utf8_valid_app; [done|]. by apply (IH (k, v)).
Qed.

Lemma element_length (f : json → string) sep x (l : list json) :
  x ∈ l → String.length (f x) ≤ String.length (join sep (map f l)).
Proof.
  induction l as [|y l IH]; intros Hx; [by apply elem_of_nil in Hx|].
  destruct l as [|z l].
  - apply list_elem_of_singleton in Hx as ->. done.
  - change (map f (y :: z :: l)) with (f y :: map f (z :: l)).
    rewrite join_more, !app_length_s by done.
    apply elem_of_cons in Hx as [-> | Hx]; [lia|]. specialize (IH Hx). lia.
Qed.

Lemma depth_le_length v : depth v ≤ String.length (dumps v).
Proof.
  induction v as [|[]|n|x|s|l IH|m IH] using json_nested_ind; simpl depth; try lia.
  - change (dumps (JList l)) with ("[" +:+ join ", " (map dumps l) +:+ "]").
    rewrite !app_length_s. simpl.
    cut (foldr (λ x n, Nat.max (depth x) n) 0 l ≤ String.length (join ", " (map dumps l)));
      [lia|].
    induction IH as [|v l Hv Hl IHl]; [simpl; lia|].
    pose proof (element_length dumps ", " v (v :: l) ltac:(by left)).
    assert (String.length (join ", " (map dumps l)) ≤
            String.length (join ", " (map dumps (v :: l)))).
    { destruct l as [|v2 l]; [simpl; lia|].
      change (map dumps (v :: v2 :: l)) with (dumps v :: map dumps (v2 :: l)).
      rewrite join_more, !app_length_s by done. lia. }
    simpl foldr. lia.
  - change (dumps (JObject m)) with ("{" +:+ join ", " (map member_text m) +:+ "}").
    rewrite !app_length_s. simpl.
    cut (foldr (λ kv n, Nat.max (depth kv.2) n) 0 m ≤
         String.length (join ", " (map member_text m))); [lia|].
    induction IH as [|[k v] m Hv Hm IHm]; [simpl; lia|].
    assert (String.length (dumps v) ≤ String.length (member_text (k, v))) as Hkv.
    { unfold member_text. rewrite !app_length_s. simpl. lia. }
    assert (String.length (member_text (k, v)) ≤
            String.length (join ", " (map member_text ((k, v) :: m))) ∧
            String.length (join ", " (map member_text m)) ≤
            String.length (join ", " (map member_text ((k, v) :: m)))) as [? ?].
    { destruct m as [|kv2 m]; [simpl; lia|].
      change (map member_text ((k, v) :: kv2 :: m))
        with (member_text (k, v) :: map member_text (kv2 :: m)).
      rewrite join_more, !app_length_s by done. lia. }
    simpl foldr. simpl in Hv. lia.
Qed.

(** Reading the text written for a wire value gives the value back. *)
Lemma loads_dumps v : wire_value v = true → loads (dumps v) = Return v.
Proof.
  intros Hv. unfold loads.
  pose proof (skip_ws_dumps v "" Hv) as Hskip. rewrite app_empty_r in Hskip.
  pose proof (scan_once_dumps (S (String.length (dumps v))) v "" Hv) as Hscan.
  rewrite app_empty_r in Hscan. rewrite Hskip, Hscan; [done| |done].
  pose proof (depth_le_length v). lia.
Qed.

Lemma payload_loads_dumps v :
  wire_value v = true → payload_loads (payload_dumps v) = Return v.
Proof.
  intros Hv. unfold payload_loads, payload_dumps.
  by rewrite dumps_valid, loads_dumps.
Qed.
End PayloadFacts.

(** ** The round trip of an envelope *)

Section RoundTripFacts.
Context `{FloatText} `{Clock} (topic_path : string).

(** C7: for every envelope whose field values are strings, integers,
    booleans, nulls or nested mappings (or lists) of these, the payload
    that the producer's [publish_message] hands to the broker is the
    serialised envelope, and what the consumer's callback decodes from
    that payload is an envelope equal to the original, field for field and
    in the same order. *)
Theorem envelope_round_trip (envelope : dict) (b : Broker) :
  wire_value (JObject envelope) = true →
  ∃ p, published (snd (publish_message topic_path envelope b)) = published b ++ [p] ∧
       payload p = payload_dumps (JObject envelope) ∧
       payload_loads (payload p) = Return (JObject envelope).
Proof.
  intros Hv. destruct (publish_message_sends_once topic_path envelope b) as (p & Hp & Hpay).
  exists p. rewrite Hp. simpl. split; [done|]. split; [done|].
  rewrite Hpay. by apply payload_loads_dumps.
Qed.
End RoundTripFacts.

Lemma envelope_round_trip_witness :
  ∃ p, published (snd (Producer.publish scenario_mixed flaky_broker)) = [] ++ [p] ∧
       payload p = @payload_dumps Producer.float_text (JObject scenario_mixed) ∧
       @payload_loads Producer.float_text (payload p) = Return (JObject scenario_mixed).
Proof.
  apply (@envelope_round_trip Producer.float_text Producer.clock Producer.topic
           scenario_mixed flaky_broker).
  vm_compute. reflexivity.
Defined.

Example scenario_mixed_payload :
  @payload_dumps Producer.float_text (JObject [("data", JObject [("name", JStr "Ana"); ("age", JInt 30)])]) =
    String "{" (String dquote ("data" +:+ String dquote (": {" +:+ String dquote ("name" +:+
      String dquote (": " +:+ String dquote ("Ana" +:+ String dquote (", " +:+ String dquote
      ("age" +:+ String dquote ": 30}}")))))))).
Proof. vm_compute. reflexivity. Qed.

(** ** The end-to-end scenarios *)

Example scenario_insert_end_to_end :
  let w := snd (Consumer.relay "m1" scenario_insert) in
  decisions w = [("m1", Ack)] ∧
  executed (store (processor_world w)) =
    [mkStatement "INSERT INTO users (name, age) VALUES ($1, $2)" [JStr "Ana"; JInt 30]].
Proof. vm_compute. done. Qed.

Example scenario_update_end_to_end :
  let w := snd (Consumer.relay "m2" scenario_update) in
  decisions w = [("m2", Ack)] ∧
  executed (store (processor_world w)) =
    [mkStatement "UPDATE users SET age = $1 WHERE name = $2" [JInt 31; JStr "Ana"]].
Proof. vm_compute. done. Qed.

Example scenario_delete_unscoped_end_to_end :
  let w := snd (Consumer.relay "m3" scenario_delete_unscoped) in
  decisions w = [("m3", Nack)] ∧ executed (store (processor_world w)) = [] ∧
  calls (processor_world w) = [].
Proof. vm_compute. done. Qed.

Example malformed_payload_is_nacked :
  let w := snd (Consumer.deliver "m4" "{not json") in
  decisions w = [("m4", Nack)] ∧ processor_world w = Run.world0.
Proof. vm_compute. done. Qed.

(** ** MessageProcessor: accepted envelopes and the counters *)

Lemma try_except_returns {W A} (m : M W A) (h : exn → M W A) :
  (∀ e w, ∃ a w', h e w = (Return a, w')) →
  ∀ w, ∃ a w', try_except m h w = (Return a, w').
Proof.
  intros Hh w. unfold try_except. destruct (m w) as [[a|e] w']; [by eexists _, _|apply Hh].
Qed.

Section ProcessorFacts.
Context `{StrUpper} {D : Type} `{DbClient D}.
Implicit Types (d : dict) (w : World D).

Local Arguments str_in : simpl never.
Local Arguments ne_str : simpl never.
Local Arguments not_get : simpl never.

Lemma execute_runs (kind : string) (table data where_clause : json) w :
  str_in kind valid_operations = true →
  let c := if String.eqb kind "INSERT" then CallInsert table data
           else if String.eqb kind "UPDATE" then CallUpdate table data where_clause
           else CallDelete table where_clause in
  ∃ l, _execute_database_operation kind table data where_clause w =
    (Return (returned (fst (run_call c (store w)))),
     mkWorld (metrics w) (logs w ++ l) (calls w ++ [c]) (snd (run_call c (store w)))).
Proof.
  intros Hk%str_in_valid. unfold _execute_database_operation, invoke, log_. run.
  destruct Hk as [-> | [-> | ->]]; simpl.
  - destruct (db_insert table data (store w)) as [[b|e] s']; simpl;
      eexists; rewrite <- !app_assoc; reflexivity.
  - destruct (db_update table data where_clause (store w)) as [[b|e] s']; simpl;
      eexists; rewrite <- !app_assoc; reflexivity.
  - destruct (db_delete table where_clause (store w)) as [[b|e] s']; simpl;
      eexists; rewrite <- !app_assoc; reflexivity.
Qed.

(** The run of [process_message] on an accepted envelope. *)
Lemma process_valid_run d kind w :
  valid_envelope d → operation_is d kind →
  ∃ l, process_message (JObject d) w =
    (Return (returned (fst (run_call (call_of kind d) (store w)))),
     mkWorld (counted (returned (fst (run_call (call_of kind d) (store w)))) true (metrics w))
             (logs w ++ l) (calls w ++ [call_of kind d])
             (snd (run_call (call_of kind d) (store w)))).
Proof.
  intros Hvalid Hkind. pose proof Hkind as (s & Es & Hs).
  assert (str_in kind valid_operations = true) as Hin.
  { destruct Hvalid as (_ & _ & [Hk | [Hk | Hk]] & _);
      rewrite (operation_is_fun _ _ _ Hkind Hk); by apply str_in_valid; auto. }
  unfold process_message, get_of, bump, log_. run.
  rewrite (validate_accepts d _ Hvalid). simpl.
  unfold dict_get_default at 1. rewrite Es. simpl. rewrite Hs.
  destruct (execute_runs kind (dict_get_default "table" (JStr "") d)
              (dict_get_default "data" (JObject []) d)
              (dict_get_default "where_clause" (JObject []) d)
              (mkWorld (inc_received (metrics w))
                 (logs w ++ [InfoProcessing (dict_get_default "event_id" (JStr "unknown") d)])
                 (calls w) (store w)) Hin) as (l & Hrun).
  simpl in Hrun. fold (call_of kind d) in Hrun. rewrite Hrun. simpl.
  destruct (returned (fst (run_call (call_of kind d) (store w)))); simpl;
    eexists; rewrite <- !app_assoc; reflexivity.
Qed.
End ProcessorFacts.

Section CounterFacts.
Context `{StrUpper} {D : Type} `{DbClient D}.
Implicit Types (d : dict) (w : World D).

Lemma valid_envelope_decided d w : valid_envelope d ∨ ¬ valid_envelope d.
Proof.
  destruct (validate_log_only (D:=D) d) as (r & l & Hv).
  destruct r as [[]|e].
  - left. by eapply validate_sound, (Hv w).
  - right. intros Hvalid. pose proof (validate_accepts d w Hvalid) as Ha.
    rewrite Hv in Ha. discriminate Ha.
  - right. intros Hvalid. pose proof (validate_accepts d w Hvalid) as Ha.
    rewrite Hv in Ha. discriminate Ha.
Qed.

Lemma process_rejected_run d w :
  ¬ valid_envelope d → step_summary (JObject d) w false false.
Proof.
  intros Hn. destruct (validate_log_only (D:=D) d) as (r & l & Hv).
  assert (r ≠ Return true) as Hr.
  { intros ->. apply Hn. eapply validate_sound. apply (Hv w). }
  unfold step_summary, process_message, get_of, bump, log_. run. rewrite Hv.
  destruct r as [[]|e]; [done| |]; simpl;
    (split; [done|]); (split; [done|]); (split; [done|]);
    exists []; by rewrite app_nil_r.
Qed.

Lemma process_not_object_run v w :
  (∀ d, v ≠ JObject d) → step_summary v w false false.
Proof.
  intros Hv. unfold step_summary, process_message, get_of, bump, log_. run.
  destruct v; try by (repeat split; try done; exists []; by rewrite app_nil_r).
  by destruct (Hv m).
Qed.

Lemma process_step v w : ∃ b db, step_summary v w b db.
Proof.
  destruct v as [| | | | | |d];
    try (exists false, false; by apply process_not_object_run).
  destruct (valid_envelope_decided d w) as [Hvalid | Hn].
  - pose proof Hvalid as (_ & _ & Hc & _).
    assert (∃ kind, operation_is d kind) as (kind & Hk).
    { destruct Hc as [? | [? | ?]]; eauto. }
    destruct (process_valid_run d kind w Hvalid Hk) as (l & Hrun).
    exists (returned (fst (run_call (call_of kind d) (store w)))), true.
    unfold step_summary. rewrite Hrun. simpl.
    repeat split; try done. by eexists [_].
  - exists false, false. by apply process_rejected_run.
Qed.

Lemma counted_arithmetic b db m :
  (b = true → db = true) →
  let m' := counted b db m in
  messages_received m' = (messages_received m + 1)%N ∧
  (messages_processed m' + messages_failed m' =
     messages_processed m + messages_failed m + 1)%N ∧
  (database_operations_success m' + messages_processed m =
     database_operations_success m + messages_processed m')%N ∧
  (database_operations_success m' + database_operations_failed m' =
     database_operations_success m + database_operations_failed m +
     (if db then 1 else 0))%N ∧
  (messages_processed m ≤ messages_processed m')%N ∧
  (database_operations_failed m ≤ database_operations_failed m')%N.
Proof.
  intros Hb. destruct m, b, db; simpl; try (by specialize (Hb eq_refl)); lia.
Qed.
End CounterFacts.

Section ProcessorProperties.
Context `{StrUpper} {D : Type} `{DbClient D}.
Implicit Types (d : dict) (w : World D).

(** X1: [process_message] and [_execute_database_operation] never raise:
    whatever the payload is and whatever the database client does, an
    exception ends as the result [False]. *)
Theorem processing_never_raises :
  (∀ v w, ∃ b w', process_message v w = (Return b, w')) ∧
  (∀ kind table data where_clause w,
     ∃ b w', _execute_database_operation kind table data where_clause w = (Return b, w')).
Proof.
  split.
  - intros v w. unfold process_message. apply try_except_returns.
    intros e w0. unfold bump, log_. run. by eexists _, _.
  - intros kind table data where_clause w. unfold _execute_database_operation.
    apply try_except_returns. intros e w0. unfold log_. run. by eexists _, _.
Qed.

(** X2: an envelope that passes the validation leads to exactly one call
    on the database client, the method of its operation kind with the
    envelope's table, data and where_clause; processing returns [True]
    exactly when that call returns without raising, whatever value it
    returns, and the store is the one the call leaves. *)
Theorem accepted_envelope_is_dispatched d kind w :
  valid_envelope d → operation_is d kind →
  ∃ w', process_message (JObject d) w =
          (Return (returned (fst (run_call (call_of kind d) (store w)))), w') ∧
        calls w' = calls w ++ [call_of kind d] ∧
        store w' = snd (run_call (call_of kind d) (store w)).
Proof.
  intros Hvalid Hkind.
  destruct (process_valid_run d kind w Hvalid Hkind) as (l & ->).
  by eexists.
Qed.

(** X3: the counters after any run of messages.  Every message counts as
    received and as exactly one of processed and failed; the database
    successes grow with the processed messages; and the client calls made
    are the database successes and failures counted, at most one call per
    message. *)
Theorem counters_after_any_run (payloads : list json) w :
  let m := metrics w in
  let m' := metrics (process_all payloads w) in
  let n := N.of_nat (length payloads) in
  let called := N.of_nat (length (calls (process_all payloads w)) - length (calls w)) in
  (messages_received m' = messages_received m + n)%N ∧
  (messages_processed m' + messages_failed m' =
     messages_processed m + messages_failed m + n)%N ∧
  (database_operations_success m' + messages_processed m =
     database_operations_success m + messages_processed m')%N ∧
  (database_operations_success m' + database_operations_failed m' =
     database_operations_success m + database_operations_failed m + called)%N ∧
  (called ≤ n)%N ∧
  length (calls w) ≤ length (calls (process_all payloads w)).
Proof.
  revert w. induction payloads as [|v vs IH]; intros w; simpl.
  - rewrite Nat.sub_diag. simpl. repeat split; lia.
  - specialize (IH (snd (process_message v w))).
    destruct (process_step v w) as (b & db & _ & Hm & Hb & cs & Hcs & Hlen).
    destruct (counted_arithmetic b db (metrics w) Hb) as (H1 & H2 & H3 & H4 & H5 & H6).
    fold (process_all vs (snd (process_message v w))).
    simpl in IH. rewrite Hm in IH. rewrite Hcs in IH. rewrite length_app in IH.
    destruct IH as (I1 & I2 & I3 & I4 & I5 & I6).
    destruct db; simpl in *; repeat split; lia.
Qed.
End ProcessorProperties.

Lemma accepted_envelope_is_dispatched_witness :
  ∃ w', Run.process (JObject scenario_insert) = (Return true, w') ∧
        calls w' = [CallInsert (JStr "users")
                      (JObject [("name", JStr "Ana"); ("age", JInt 30)])] ∧
        store w' = mkPg [mkStatement "INSERT INTO users (name, age) VALUES ($1, $2)"
                           [JStr "Ana"; JInt 30]].
Proof.
  apply (@accepted_envelope_is_dispatched Run.upper_ascii Pg Run.db
           scenario_insert "INSERT" Run.world0).
  - apply (@validate_sound Run.upper_ascii Pg scenario_insert Run.world0 Run.world0).
    vm_compute. reflexivity.
  - exists "insert". split; reflexivity.
Defined.

(** ** MessageProcessor over DatabaseClient *)

Section ConcreteFacts.
Context `{StrUpper} `{Connection} `{PyStr}.
Implicit Types (d : dict) (w : World Pg).

Lemma run_call_statement (c : db_call) (pg : Pg) :
  run_call c pg =
    match statement_of c with
    | Some st =>
        (match conn_execute st with None => Return true | Some e => Raise e end,
         mkPg (executed pg ++ [st]))
    | None => (Raise AttributeError, pg)
    end.
Proof.
  destruct c as [table data | table data where_ | table where_]; simpl;
    unfold as_dict, insert, update, delete, execute; run.
  - destruct data; try done. by destruct (conn_execute _).
  - destruct data; try done. destruct where_; try done. by destruct (conn_execute _).
  - destruct where_; try done. by destruct (conn_execute _).
Qed.

(** X4: with [DatabaseClient] as the client, an accepted envelope whose
    mappings are mappings submits exactly the one statement built for its
    operation, and processing returns [True] exactly when the database
    runs it. *)
Theorem accepted_envelope_runs_its_statement d kind st w :
  valid_envelope d → operation_is d kind →
  statement_of (call_of kind d) = Some st →
  ∃ w', process_message (JObject d) w =
          (Return (match conn_execute st with None => true | Some _ => false end), w') ∧
        executed (store w') = executed (store w) ++ [st].
Proof.
  intros Hvalid Hkind Hst.
  destruct (process_valid_run d kind w Hvalid Hkind) as (l & ->).
  rewrite run_call_statement, Hst. simpl.
  eexists. split.
  - f_equal. f_equal. by destruct (conn_execute st).
  - reflexivity.
Qed.

(** X5: an accepted envelope whose [data] or [where_clause] is not empty
    but is not a mapping either (a string, a number, a list) is stopped in
    the client: the method is called, raises before any statement is
    submitted, and processing returns [False]. *)
Theorem non_mapping_is_stopped_in_the_client d kind w :
  valid_envelope d → operation_is d kind →
  statement_of (call_of kind d) = None →
  ∃ w', process_message (JObject d) w = (Return false, w') ∧
        calls w' = calls w ++ [call_of kind d] ∧
        store w' = store w.
Proof.
  intros Hvalid Hkind Hst.
  destruct (process_valid_run d kind w Hvalid Hkind) as (l & ->).
  rewrite run_call_statement, Hst. simpl. by eexists.
Qed.
End ConcreteFacts.

Lemma accepted_envelope_runs_its_statement_witness :
  ∃ w', Run.process (JObject scenario_update) = (Return true, w') ∧
        executed (store w') =
          [] ++ [mkStatement "UPDATE users SET age = $1 WHERE name = $2"
                   [JInt 31; JStr "Ana"]].
Proof.
  apply (@accepted_envelope_runs_its_statement Run.upper_ascii Run.always_ok Run.no_str
           scenario_update "UPDATE"
           (mkStatement "UPDATE users SET age = $1 WHERE name = $2" [JInt 31; JStr "Ana"])
           Run.world0).
  - apply (@validate_sound Run.upper_ascii Pg scenario_update Run.world0 Run.world0).
    vm_compute. reflexivity.
  - exists "update". split; reflexivity.
  - vm_compute. reflexivity.
Defined.

Lemma non_mapping_is_stopped_in_the_client_witness :
  ∃ w', Run.process (JObject scenario_insert_string_data) = (Return false, w') ∧
        calls w' = [] ++ [CallInsert (JStr "users") (JStr "name=Ana")] ∧
        store w' = mkPg [].
Proof.
  apply (@non_mapping_is_stopped_in_the_client Run.upper_ascii Run.always_ok Run.no_str
           scenario_insert_string_data "INSERT" Run.world0).
  - apply (@validate_sound Run.upper_ascii Pg scenario_insert_string_data
             Run.world0 Run.world0).
    vm_compute. reflexivity.
  - exists "INSERT". split; reflexivity.
  - reflexivity.
Defined.

(** ** DatabaseClient: empty mappings *)

Lemma app_is_empty s t : s +:+ t = "" → s = "" ∧ t = "".
Proof. destruct s; [done|]. rewrite app_cons. discriminate. Qed.

Lemma assignment_not_empty column n : assignment column n ≠ "".
Proof.
  unfold assignment. intros [_ Hrest]%app_is_empty. discriminate Hrest.
Qed.

Lemma join_empty sep x l : join sep (x :: l) = "" → x = "".
Proof.
  destruct l as [|y l]; [done|]. rewrite join_more by done.
  by intros [-> _]%app_is_empty.
Qed.

Lemma assignments_empty sep first columns :
  assignments sep first columns = "" ↔ columns = [].
Proof.
  split; [|by intros ->]. destruct columns as [|k columns]; [done|].
  unfold assignments. rewrite imap_cons. intros Hj%join_empty.
  by apply assignment_not_empty in Hj.
Qed.

Lemma keys_nil (d : dict) : keys d = [] ↔ d = [].
Proof. unfold keys. split; [apply fmap_nil_inv|by intros ->]. Qed.

(** X6: [delete] and [update] never build a statement without WHERE.  For
    an empty where mapping the text ends in a WHERE with no condition
    and is never the unscoped
    [DELETE FROM table]; the condition text is empty exactly when the
    mapping is, and so is the SET list of [update]. *)
Theorem mappings_and_their_clauses (table : string) (data where_ : dict) :
  (query (delete_statement table where_) = "DELETE FROM " +:+ table +:+ " WHERE "
     ↔ where_ = []) ∧
  query (delete_statement table where_) ≠ "DELETE FROM " +:+ table ∧
  (∃ set_list condition,
     query (update_statement table data where_) =
       "UPDATE " +:+ table +:+ " SET " +:+ set_list +:+ " WHERE " +:+ condition ∧
     (set_list = "" ↔ data = []) ∧ (condition = "" ↔ where_ = [])) ∧
  (query (insert_statement table data) = "INSERT INTO " +:+ table +:+ " () VALUES ()"
     ↔ data = []).
Proof.
  rewrite delete_query_text, update_query_text, insert_query_text.
  split; [|split; [|split]].
  - rewrite <- (app_empty_r " WHERE ") at 2. split.
    + intros Heq. do 3 apply (inj (String.app _)) in Heq.
      by apply assignments_empty, keys_nil in Heq.
    + by intros ->.
  - rewrite <- (app_empty_r table) at 2. intros Heq.
    do 2 apply (inj (String.app _)) in Heq. discriminate Heq.
  - eexists _, _. split; [reflexivity|].
    by rewrite !assignments_empty, !keys_nil.
  - split; [|by intros ->].
    change " () VALUES ()" with (" (" +:+ ") VALUES ()").
    intros Heq. do 3 apply (inj (String.app _)) in Heq.
    destruct data as [|[k v] data]; [done|].
    assert (String.length (join ", " (keys ((k, v) :: data)) +:+ ") VALUES (" +:+
              placeholder_list 1 (length ((k, v) :: data)) +:+ ")") =
            String.length (") VALUES ()")) as Hlen by (by rewrite Heq).
    rewrite !app_length_s in Hlen.
    assert (1 ≤ String.length (placeholder_list 1 (length ((k, v) :: data)))) as Hp.
    { unfold placeholder_list. simpl seq. rewrite fmap_cons.
      destruct (placeholder <$> seq 2 (length data)) as [|y l] eqn:E.
      - simpl. lia.
      - rewrite join_more, app_length_s by done. simpl. lia. }
    revert Hlen Hp.
    generalize (String.length (placeholder_list 1 (length ((k, v) :: data)))).
    generalize (String.length (join ", " (keys ((k, v) :: data)))).
    simpl. lia.
Qed.

Example delete_with_empty_mapping :
  delete_statement "users" [] = mkStatement "DELETE FROM users WHERE " [].
Proof. vm_compute. reflexivity. Qed.


(** ** PubSubSubscriber: runs of deliveries *)

Section DeliveryFacts.
Context `{FloatText} {W : Type} (process : json → M W bool).








End DeliveryFacts.

(** A payload that is not JSON is refused with [nack()], and no counter
    but [messages_received] moves. *)
Example undecodable_delivery_is_not_counted :
  let w := deliver_all (H := Producer.float_text)
             (process_message (H := Run.upper_ascii) (D := Pg) (H0 := Run.db))
             [mkMessage "m-1" "not json"] Consumer.world0 in
  decisions w = [("m-1", Nack)] ∧
  sub_metrics w = mkSubscriberMetrics 1 0 0.
Proof. vm_compute. split; reflexivity. Qed.


(** ** PubSubSubscriber: starting and stopping *)

Lemma started_pulls (project_id subscription_id : string) (n : nat) :
  let sub := mkSubscription (subscription_path project_id subscription_id) (mkFlowControl 10) in
  Nat.iter (S n) start_pulling (fresh_pulling project_id subscription_id) =
    mkPulling (mkPubSubSubscriber project_id subscription_id (Some sub) true)
      (Some n) (replicate n (sub, false) ++ [(sub, false)]).
Proof.
  induction n as [|n IH]; [reflexivity|].
  cbv zeta in IH |- *. rewrite Nat.iter_succ, IH.
  unfold start_pulling. simpl. rewrite length_app, length_replicate. simpl.
  rewrite Nat.add_1_r. do 2 f_equal.
  rewrite <- replicate_cons_app. simpl. by rewrite <- replicate_cons_app.
Qed.

(** X9: starting is not guarded.  Every [start_consuming] opens a new
    streaming pull with the same path and flow control and overwrites
    [streaming_pull_future]; [stop_consuming] cancels the pull opened last
    and no other, so after [n + 1] starts and a stop the subscriber reports
    that it is not consuming while [n] pulls were never cancelled.
    Stopping a subscriber that was never started changes nothing. *)
Theorem stop_cancels_the_latest_pull_only (project_id subscription_id : string) (n : nat) :
  let sub := mkSubscription (subscription_path project_id subscription_id) (mkFlowControl 10) in
  let p := stop_consuming
             (Nat.iter (S n) start_pulling (fresh_pulling project_id subscription_id)) in
  is_consuming (subscriber_of p) = false ∧
  pulls p = replicate n (sub, false) ++ [(sub, true)] ∧
  stop_consuming (fresh_pulling project_id subscription_id) =
    fresh_pulling project_id subscription_id.
Proof.
  cbv zeta. rewrite started_pulls. unfold stop_consuming, cancel. simpl.
  split; [done|]. split; [|done].
  rewrite <- (Nat.add_0_r n) at 1.
  rewrite <- (length_replicate n
    (mkSubscription (subscription_path project_id subscription_id) (mkFlowControl 10), false)) at 1.
  by rewrite alter_app_r.
Qed.


(** ** PubSubPublisher: construction *)

Lemma verify_passes s topic_name topic_path :
  _verify_topic_exists s topic_name topic_path = None ↔ get_topic s topic_path = None.
Proof.
  unfold _verify_topic_exists. destruct (get_topic s topic_path) as [[]|]; split; done.
Qed.

(** X10: a [PubSubPublisher] exists only if credentials were found (the
    ambient ones, or else a key file that is named by
    GOOGLE_APPLICATION_CREDENTIALS and exists) and [get_topic] answered for
    its topic path without an exception.  Its topic is PUBSUB_TOPIC (or
    [database-operations]); its project is the one the ambient credentials
    name, whatever PROJECT_ID says, and PROJECT_ID (or [meu-projeto-lab])
    only when they name none. *)
Theorem publisher_is_built_on_a_verified_topic (s : Surroundings) (self : PubSubPublisher) :
  new_publisher s = inr self →
  get_topic s (pub_topic_path self) = None ∧
  pub_topic_path self = topic_path_of (pub_project_id self) (pub_topic_name self) ∧
  pub_topic_name self = getenv_default (environ s) "PUBSUB_TOPIC" "database-operations" ∧
  match default_credentials s with
  | inr (Some project) =>
      pub_project_id self =
        if String.eqb project "" then getenv_default (environ s) "PROJECT_ID" "meu-projeto-lab"
        else project
  | inr None =>
      pub_project_id self = getenv_default (environ s) "PROJECT_ID" "meu-projeto-lab"
  | inl e =>
      e = DefaultCredentialsError ∧
      pub_project_id self = getenv_default (environ s) "PROJECT_ID" "meu-projeto-lab" ∧
      ∃ sa_key_path,
        getenv (environ s) "GOOGLE_APPLICATION_CREDENTIALS" = Some sa_key_path ∧
        sa_key_path ≠ "" ∧ path_exists s sa_key_path = true
  end.
Proof.
  unfold new_publisher, _initialize_client, authenticate.
  set (project_id := getenv_default (environ s) "PROJECT_ID" "meu-projeto-lab").
  set (topic_name := getenv_default (environ s) "PUBSUB_TOPIC" "database-operations").
  assert (∀ p, match new_publisher_client s with
               | Some e => inl e
               | None =>
                   match _verify_topic_exists s topic_name (topic_path_of p topic_name) with
                   | Some e => inl e
                   | None => inr (mkPubSubPublisher p topic_name (topic_path_of p topic_name))
                   end
               end = inr self →
               get_topic s (pub_topic_path self) = None ∧
               pub_topic_path self = topic_path_of (pub_project_id self) (pub_topic_name self) ∧
               pub_topic_name self = topic_name ∧ pub_project_id self = p) as Hrest.
  { intros p. destruct (new_publisher_client s); [done|].
    destruct (_verify_topic_exists s topic_name _) eqn:Hv; [done|].
    intros [= <-]. simpl. by apply verify_passes in Hv. }
  assert (∀ x : init_error + PubSubPublisher,
            match x with inr a => inr a | inl e => inl e end = x) as Hid by (by intros [|]).
  destruct (default_credentials s) as [[]|[project|]].
  - destruct (getenv (environ s) "GOOGLE_APPLICATION_CREDENTIALS") as [path|]; [|done].
    destruct (String.eqb path "") eqn:Hpath; [done|]. simpl.
    destruct (path_exists s path) eqn:Hexists; [|done].
    rewrite Hid. intros Heq. destruct (Hrest _ Heq) as (? & ? & ? & ?).
    repeat split; try done. exists path. repeat split; try done.
    by apply String.eqb_neq.
  - done.
  - done.
  - destruct (String.eqb project ""); rewrite Hid;
      intros Heq; by destruct (Hrest _ Heq) as (? & ? & ? & ?).
  - rewrite Hid. intros Heq. by destruct (Hrest _ Heq) as (? & ? & ? & ?).
Qed.

Lemma publisher_is_built_on_a_verified_topic_witness :
  get_topic ambient_surroundings "projects/from-adc/topics/database-operations" = None ∧
  "projects/from-adc/topics/database-operations" =
    topic_path_of "from-adc" "database-operations" ∧
  "database-operations" =
    getenv_default (environ ambient_surroundings) "PUBSUB_TOPIC" "database-operations" ∧
  "from-adc" = "from-adc".
Proof.
  apply (publisher_is_built_on_a_verified_topic ambient_surroundings
           (mkPubSubPublisher "from-adc" "database-operations"
              "projects/from-adc/topics/database-operations")).
  vm_compute. reflexivity.
Defined.

Example publisher_by_key_file :
  new_publisher key_file_surroundings =
    inr (mkPubSubPublisher "meu-projeto-lab" "orders" "projects/meu-projeto-lab/topics/orders").
Proof. vm_compute. reflexivity. Qed.


(** ** PubSubPublisher: what a call leaves at the broker *)

Section PublishOutcomeFacts.
Context `{FloatText} `{Clock} (topic_path : string).

(** X11: [publish_message] hands the serialised envelope to the broker
    before it waits, whatever the wait then gives.  The call returns an
    identifier exactly when the send is confirmed within 30 time units;
    when the confirmation takes longer the call raises [TimeoutError],
    also for a send that the broker does confirm, so a raise does not
    mean that the message was not published. *)
Theorem a_failed_publish_has_still_sent (data : dict) (b : Broker) :
  let future := script b (length (published b)) in
  let '(r, b') := publish_message topic_path data b in
  (∃ p, published b' = published b ++ [p] ∧ topic p = topic_path ∧
        payload p = dumps (JObject data)) ∧
  script b' = script b ∧
  (∀ message_id, r = Return message_id ↔
     (resolves_after future ≤ 30)%N ∧ resolved future = Sent message_id) ∧
  ((30 < resolves_after future)%N → r = Raise TimeoutError) ∧
  (∀ e, (resolves_after future ≤ 30)%N → resolved future = Failed e → r = Raise e).
Proof.
  unfold publish_message, utcnow, client_publish, _wait_for_publish, _get_result,
    future_result.
  run.
  set (future := script b (length (published b))).
  destruct (N.ltb_spec 30 (resolves_after future)) as [Hlate | Hintime].
  - simpl. split; [by eexists|]. split; [done|]. split; [|split].
    + intros message_id. split; [done|]. intros [? _]. lia.
    + done.
    + intros e ?. lia.
  - destruct (resolved future) as [id|e]; simpl;
      (split; [by eexists|]); (split; [done|]); (split; [|split]).
    + intros message_id. split; [by intros [= ->]|]. by intros [_ [= ->]].
    + intros ?. lia.
    + done.
    + intros message_id. split; [done|]. by intros [_ ?].
    + intros ?. lia.
    + by intros e' _ [= ->].
Qed.

(** X12: the sends of [publish_batch] are labelled by position.  Send [i]
    of a batch of N carries [batch_index] i and [batch_size] N in decimal
    and the fixed [source], and, unlike a send of [publish_message], no
    [event_type] and no [operation] attribute, whatever the message holds. *)
Theorem batch_sends_are_labelled_by_position (messages : list json) (b : Broker) :
  ∃ sends,
    published (snd (publish_batch topic_path messages b)) = published b ++ sends ∧
    length sends = length messages ∧
    ∀ i p, sends !! i = Some p →
      dict_get "batch_index" (attributes p) = Some (JStr (pretty i)) ∧
      dict_get "batch_size" (attributes p) = Some (JStr (pretty (length messages))) ∧
      dict_get "source" (attributes p) = Some (JStr "app1-produtora") ∧
      dict_get "event_type" (attributes p) = None ∧
      dict_get "operation" (attributes p) = None.
Proof.
  unfold publish_batch. run. rewrite send_all_runs. simpl.
  eexists. split; [reflexivity|]. split; [by rewrite length_imap|].
  intros i p Hp. apply list_lookup_imap_Some in Hp as (data & _ & ->).
  done.
Qed.
End PublishOutcomeFacts.

(** A confirmation that comes after 45 time units: the call raises, and
    the message is at the broker. *)
Example late_confirmation_is_a_failure :
  let '(r, b') :=
    Producer.publish scenario_insert (mkBroker (λ _, mkFuture 45 (Sent "m1")) []) in
  r = Raise TimeoutError ∧ length (published b') = 1.
Proof. vm_compute. done. Qed.


(** ** The worker: starting *)

(** X13: [start_consumer] cannot start the consumer.  It constructs the
    subscriber with one argument where [__init__] needs three, so whenever
    the database connects the call raises [TypeError]; in every case the
    function raises, leaves [running] false and [subscriber] as it was,
    and opens no streaming pull.  After it, and after [main], the liveness
    and readiness probes answer 503, and the connection pool that
    [connect] created is still open. *)
Theorem the_consumer_never_starts (connect subscriber_client : option exn)
    (processor_text : string) (g : Worker.Globals) :
  let '(raised, g') := Worker.start_consumer connect subscriber_client processor_text g in
  let g'' := Worker.main connect subscriber_client processor_text g in
  raised = match connect with
           | Some e => Some (Worker.Raised e)
           | None => Some Worker.TypeError
           end ∧
  Worker.running g' = false ∧
  Worker.subscriber g' = Worker.subscriber g ∧
  Worker.pools g' = match connect with
                    | Some _ => Worker.pools g
                    | None => S (Worker.pools g)
                    end ∧
  Worker.health_check g' = 503 ∧ Worker.readiness_check g' = 503 ∧
  Worker.running g'' = false ∧ Worker.pools g'' = Worker.pools g' ∧
  Worker.health_check g'' = 503 ∧ Worker.readiness_check g'' = 503 ∧
  (Worker.subscriber g = None → Worker.subscriber g'' = None).
Proof.
  unfold Worker.main, Worker.start_consumer, Worker.start_consumer_body,
    Worker.stop_consumer, Worker.health_check, Worker.readiness_check.
  destruct connect as [e|]; simpl;
    destruct (Worker.subscriber g) as [s|] eqn:Hs; simpl; rewrite ?Hs; done.
Qed.

Example the_loaded_worker_stays_down :
  Worker.main None None "processor" Worker.loaded = Worker.mkGlobals None true false 1 ∧
  Worker.root_status (Worker.main None None "processor" Worker.loaded) = "stopped".
Proof. vm_compute. done. Qed.


(** ** From the producer to the database *)

Section RelayFacts.
Context `{FloatText} `{Clock} `{StrUpper} `{Connection} `{PyStr} (topic_path : string).
Implicit Types (d : dict) (b : Broker) (w : SubWorld (World Pg)).



End RelayFacts.


